(** * ORB scanner API: license gate and rate limiter

    A shallow embedding of [src/api_server.py] (and of [src/app.py], whose
    [validate_license_key], [rate_limit_check] and [require_license] have the
    same text) together with the properties of the license gate, of the rate
    limiter and of the request dispatch.

    Conventions.
    - A Python function becomes a computation in the monad [M]: it takes the
      process state ([world]) and either returns a value or raises an
      exception, in both cases with the state it leaves behind.
    - The module-level dictionary [request_counts] maps a license key to an
      inner dictionary object [{'count': .., 'timestamp': ..}].  Inner
      dictionaries are mutable objects, so they live in a heap and the outer
      dictionary holds references to them.  A license key is whatever
      [request.headers.get] returns: [None] or a [str].
    - [time.time()] and [datetime.now()] are inputs: every request carries the
      clock value read while it is served, as an integer number of seconds.
    - The bodies of the proxied endpoints (one outbound HTTP call each) are
      left abstract. *)

From stdpp Require Import base option list strings gmap.
From Stdlib Require Import ZArith Ascii.
From Stdlib Require SpecFloat.

Open Scope Z_scope.

(** ** Python values used by the program *)

(** [str.split(sep)] for a one-character separator: the string is cut at
    every occurrence of [sep]; the empty string yields one empty piece. *)
Fixpoint split_on (sep : ascii) (s : string) : list string :=
  match s with
  | EmptyString => [EmptyString]
  | String c rest =>
      if Ascii.eqb c sep then EmptyString :: split_on sep rest
      else match split_on sep rest with
           | piece :: pieces => String c piece :: pieces
           | [] => [String c EmptyString]
           end
  end.

(** Truth value of [license_key] in [if not license_key]: the value is either
    [None] or a [str]; [None] and the empty string are false. *)
Definition truthy (v : option string) : bool :=
  match v with
  | None => false
  | Some EmptyString => false
  | Some (String _ _) => true
  end.

(** ** Configuration (module-level constants) *)

Record environ := {
  env_POLYGON_API_KEY : option string;
  env_FINNHUB_API_KEY : option string;
  env_VALID_LICENSE_KEYS : option string
}.

(** [FINNHUB_API_KEY] is [None] in api_server.py and a string in app.py. *)
Record config := {
  POLYGON_API_KEY : string;
  FINNHUB_API_KEY : option string;
  VALID_LICENSE_KEYS : list string
}.

(** [os.getenv(name, fallback)] *)
Definition getenv (v : option string) (fallback : string) : string :=
  default fallback v.

(** Line 35 of api_server.py, line 20 of app.py. *)
Definition load_license_keys (e : environ) : list string :=
  split_on "," (getenv (env_VALID_LICENSE_KEYS e)
                       "test-license-123,prod-license-456").

Definition RATE_LIMIT_REQUESTS : Z := 100.
Definition RATE_LIMIT_WINDOW : Z := 60.

(** ** Process state *)

(** An inner dictionary [{'count': c, 'timestamp': t}]. *)
Record entry := { count : Z; timestamp : Z }.

Abbreviation loc := positive.

(** A license key as the handlers hold it: the result of
    [request.headers.get('X-License-Key')], [None] or a string. *)
Abbreviation key := (option string).

(** [heap] holds the inner dictionary objects; [request_counts] is the
    module-level name, bound to a dictionary from license key to a reference
    to an inner dictionary. *)
Record world := {
  heap : gmap loc entry;
  request_counts : gmap key loc
}.

(** State at import time: [request_counts = {}]. *)
Definition initial_world : world := {| heap := ∅; request_counts := ∅ |}.

(** The entry the module-level dictionary holds for a key. *)
Definition entry_of (w : world) (k : key) : option entry :=
  request_counts w !! k ≫= λ l, heap w !! l.

(** ** Exceptions and the monad of Python computations *)

Inductive exn :=
| UnboundLocalError (name : string)
| KeyError (k : key)
| SystemError.

Inductive result (A : Type) :=
| Ok (a : A) (w : world)
| Raise (e : exn) (w : world).
Arguments Ok {A} a w.
Arguments Raise {A} e w.

Definition M (A : Type) : Type := world → result A.

#[global] Instance M_ret : MRet M := λ A a w, Ok a w.
#[global] Instance M_bind : MBind M := λ A B f m w,
  match m w with
  | Ok a w' => f a w'
  | Raise e w' => Raise e w'
  end.

Definition raise {A} (e : exn) : M A := λ w, Raise e w.
Definition get_heap : M (gmap loc entry) := λ w, Ok (heap w) w.

(** The state a computation leaves behind, whatever its outcome. *)
Definition final_world {A} (r : result A) : world :=
  match r with Ok _ w => w | Raise _ w => w end.

(** Creation of a new inner dictionary object. *)
Definition alloc (e : entry) : M loc := λ w,
  let l := fresh (dom (heap w)) in
  Ok l {| heap := <[l := e]> (heap w); request_counts := request_counts w |}.

(** Read of an inner dictionary through its reference. *)
Definition deref (l : loc) : M entry := λ w,
  match heap w !! l with
  | Some e => Ok e w
  | None => Raise SystemError w
  end.

(** In-place update of an inner dictionary. *)
Definition store (l : loc) (e : entry) : M unit := λ w,
  Ok tt {| heap := <[l := e]> (heap w); request_counts := request_counts w |}.

(** Read of a local variable of the running function.  A local name that has
    not been assigned yet has no value, and reading it raises
    [UnboundLocalError]. *)
Definition load_fast {A} (name : string) (slot : option A) : M A :=
  match slot with
  | Some v => mret v
  | None => raise (UnboundLocalError name)
  end.

(** [d[k]] on an outer dictionary. *)
Definition subscript (d : gmap key loc) (k : key) : M loc :=
  match d !! k with
  | Some l => mret l
  | None => raise (KeyError k)
  end.

(** ** The license gate *)

(** [validate_license_key] (api_server.py 48-52, app.py 27-30).
    [license_key] is what [request.headers.get] returned. *)
Definition validate_license_key (cfg : config) (license_key : key)
  : M bool :=
  if negb (truthy license_key) then mret false
  else
    match license_key with
    | Some s => mret (bool_decide (s ∈ VALID_LICENSE_KEYS cfg))
    | None => mret false
    end.

(** ** The rate limiter *)

(** The test [v['timestamp'] > window_start] of the comprehension, for the
    inner dictionary referenced by [l]. *)
Definition newer_than (h : gmap loc entry) (window_start : Z) (l : loc) : bool :=
  match h !! l with
  | Some e => bool_decide (window_start < timestamp e)
  | None => false
  end.

(** The statements of [rate_limit_check] (api_server.py 56-74, app.py 33-50),
    run in a frame whose local variable [request_counts] starts in [slot].

    Python fixes the scope of a name when it compiles the function: a name
    that is assigned somewhere in the body and is not declared [global] is a
    local variable in the whole body.  The body assigns to [request_counts]
    on line 60 and declares nothing, so every occurrence of the name reads or
    writes the frame, the one in [request_counts.items()] on line 60 included
    (the first iterable of a comprehension is evaluated in the enclosing
    function); none reads the module-level dictionary.  The dictionaries
    built in the frame are dropped when the function returns; only the inner
    dictionary objects are shared with the module-level dictionary. *)
Definition rate_limit_check_body (license_key : key) (current_time : Z)
    (slot : option (gmap key loc)) : M bool :=
  let window_start := current_time - RATE_LIMIT_WINDOW in
  (* 60: request_counts = {k: v for k, v in request_counts.items()
                           if v['timestamp'] > window_start} *)
  old ← load_fast "request_counts" slot;
  h ← get_heap;
  let slot := Some (filter (λ kv, newer_than h window_start kv.2 = true) old) in
  (* 62: if license_key not in request_counts: *)
  d ← load_fast "request_counts" slot;
  if bool_decide (d !! license_key = None) then
    (* 63-64 *)
    l ← alloc {| count := 1; timestamp := current_time |};
    d ← load_fast "request_counts" slot;
    let slot := Some (<[license_key := l]> d) in
    mret true
  else
    (* 66: if request_counts[license_key]['timestamp'] < window_start: *)
    d ← load_fast "request_counts" slot;
    l ← subscript d license_key;
    e ← deref l;
    if bool_decide (timestamp e < window_start) then
      (* 67-68 *)
      l ← alloc {| count := 1; timestamp := current_time |};
      d ← load_fast "request_counts" slot;
      let slot := Some (<[license_key := l]> d) in
      mret true
    else
      (* 70: if request_counts[license_key]['count'] >= RATE_LIMIT_REQUESTS: *)
      d ← load_fast "request_counts" slot;
      l ← subscript d license_key;
      e ← deref l;
      if bool_decide (count e >= RATE_LIMIT_REQUESTS) then
        (* 71 *)
        mret false
      else
        (* 73: request_counts[license_key]['count'] += 1 *)
        d ← load_fast "request_counts" slot;
        l ← subscript d license_key;
        e ← deref l;
        store l {| count := count e + 1; timestamp := timestamp e |};;
        (* 74 *)
        mret true.

(** [rate_limit_check]: a call starts a fresh frame, in which the local
    [request_counts] has no value yet.  [current_time] is the value of
    [time.time()] read on line 56. *)
Definition rate_limit_check (license_key : key) (current_time : Z) : M bool :=
  rate_limit_check_body license_key current_time None.

(** ** Requests and responses *)

(** A GET request: every rule of the two applications is registered for GET,
    and the model covers GET requests.  [path] is the request path as the
    router sees it. *)
Record request := {
  path : string;
  headers : list (string * string)
}.

Definition lower (c : ascii) : ascii :=
  let n := nat_of_ascii c in
  if (Nat.leb 65 n && Nat.leb n 90)%bool then ascii_of_nat (n + 32) else c.

Fixpoint lower_string (s : string) : string :=
  match s with
  | EmptyString => EmptyString
  | String c rest => String (lower c) (lower_string rest)
  end.

(** [request.headers.get(name)]: the value of the first header with that
    name, header names compared without regard to case; [None] when there is
    no such header. *)
Fixpoint headers_get (name : string) (hs : list (string * string)) : key :=
  match hs with
  | [] => None
  | (n, v) :: rest =>
      if String.eqb (lower_string n) (lower_string name) then Some v
      else headers_get name rest
  end.

(** The values the handlers of the program put in a JSON object. *)
Inductive jvalue :=
| JStr (s : string)
| JBool (b : bool)
| JIsoTime (t : Z).         (* datetime.isoformat() of the clock value t *)

Inductive payload :=
| Json (fields : list (string * jvalue))  (* a JSON object built by a handler *)
| Forwarded (document : string)           (* a document built from upstream data *)
| DefaultPage.                            (* the framework's built-in error page *)

Record response := { status : Z; body : payload }.

(** [jsonify(d)] and [jsonify(d), code]. *)
Definition jsonify (fields : list (string * jvalue)) : response :=
  {| status := 200; body := Json fields |}.
Definition with_status (r : response) (code : Z) : response :=
  {| status := code; body := body r |}.

(** A view function: URL variables, the request, the clock. *)
Definition view : Type := list string → request → Z → M response.

(** [require_license] (api_server.py 76-89, app.py 52-65): the decorated
    function. *)
Definition require_license (cfg : config) (f : view) : view :=
  λ args req now,
    let license_key := headers_get "X-License-Key" (headers req) in
    valid ← validate_license_key cfg license_key;
    if negb valid then
      mret (with_status (jsonify [("error", JStr "Invalid license key")]) 401)
    else
      allowed ← rate_limit_check license_key now;
      if negb allowed then
        mret (with_status (jsonify [("error", JStr "Rate limit exceeded")]) 429)
      else
        f args req now.

(** ** Routing and dispatch (the part of Flask the program relies on) *)

(** A rule segment [<name>] is a variable; it matches any non-empty segment. *)
Fixpoint ends_with (c : ascii) (s : string) : bool :=
  match s with
  | EmptyString => false
  | String a EmptyString => Ascii.eqb a c
  | String _ rest => ends_with c rest
  end.

Definition is_variable (seg : string) : bool :=
  match seg with
  | String a rest => (Ascii.eqb a "<" && ends_with ">" rest)%bool
  | EmptyString => false
  end.

Fixpoint match_segments (pattern segs : list string) : option (list string) :=
  match pattern, segs with
  | [], [] => Some []
  | p :: pattern', s :: segs' =>
      if is_variable p then
        match s with
        | EmptyString => None
        | _ => cons s <$> match_segments pattern' segs'
        end
      else if String.eqb p s then match_segments pattern' segs'
      else None
  | _, _ => None
  end.

Definition match_rule (rule path : string) : option (list string) :=
  match_segments (split_on "/" rule) (split_on "/" path).

(** The first rule of the map that matches the path, with the URL variables.
    The path is matched as it is: this is what the router of Flask does for a
    path that starts with one slash and has no two slashes in a row (see
    [plain_path]). *)
Fixpoint url_match {E} (url_map : list (string * E)) (p : string)
  : option (E * list string) :=
  match url_map with
  | [] => None
  | (rule, e) :: rest =>
      match match_rule rule p with
      | Some args => Some (e, args)
      | None => url_match rest p
      end
  end.

(** What the program gives to Flask: the rules of its [@app.route]
    decorators, the view functions, and the handlers of its
    [@app.errorhandler] decorators.  Flask's own rule for static files is
    left out: the repository has no static file, and a request for a missing
    one ends in the same 404 handling as a path that matches no rule. *)
Record flask_app (E : Type) := {
  url_map : list (string * E);
  view_functions : E → view;
  errorhandler : Z → option response
}.
Arguments url_map {E} _.
Arguments view_functions {E} _.
Arguments errorhandler {E} _.

(** The response for an HTTP error code: the registered handler if there is
    one, the built-in page otherwise. *)
Definition handle_http_error {E} (app : flask_app E) (code : Z) : response :=
  match errorhandler app code with
  | Some r => r
  | None => {| status := code; body := DefaultPage |}
  end.

(** One request: routing, the view function, and the conversion of a missing
    route (404) and of an exception that leaves the view (500; both files
    start the server with [debug=False], so exceptions are not propagated).
    The redirect that Flask answers to a path with extra slashes and the
    serving of static files are not part of it: the model is of the requests
    whose path is matched as it is. *)
Definition dispatch {E} (app : flask_app E) (req : request) (now : Z)
    (w : world) : response * world :=
  match url_match (url_map app) (path req) with
  | None => (handle_http_error app 404, w)
  | Some (e, args) =>
      match view_functions app e args req now w with
      | Ok r w' => (r, w')
      | Raise _ w' => (handle_http_error app 500, w')
      end
  end.

(** Requests served one after the other, each with its clock value. *)
Fixpoint serve {E} (app : flask_app E) (reqs : list (request * Z)) (w : world)
  : list response * world :=
  match reqs with
  | [] => ([], w)
  | (req, now) :: rest =>
      let '(r, w') := dispatch app req now w in
      let '(rs, w'') := serve app rest w' in
      (r :: rs, w'')
  end.

(** ** The application of api_server.py *)

Module ApiServer.

Inductive endpoint :=
| health_check_ep
| get_gainers_ep
| get_losers_ep
| get_historical_ep
| get_float_ep
| get_news_ep
| get_volume_ep.

(** Lines 28, 32 and 35. *)
Definition load_config (e : environ) : config :=
  {| POLYGON_API_KEY := getenv (env_POLYGON_API_KEY e) "";
     FINNHUB_API_KEY := None;
     VALID_LICENSE_KEYS := load_license_keys e |}.

(** Lines 234-240: the dictionary [health_check] returns at clock value
    [now]. *)
Definition health_check_response (cfg : config) (now : Z) : response :=
  jsonify
    [("status", JStr "healthy");
     ("timestamp", JIsoTime now);
     ("polygon_api_configured", JBool (truthy (Some (POLYGON_API_KEY cfg))));
     ("finnhub_api_configured", JStr "local_gui");
     ("message", JStr "Finnhub API key is handled locally in the GUI")].

(** Lines 231-240. *)
Definition health_check (cfg : config) : view := λ _ _ now,
  mret (health_check_response cfg now).

(** Lines 351-353. *)
Definition not_found : response :=
  with_status (jsonify [("error", JStr "Endpoint not found")]) 404.

(** Lines 355-357. *)
Definition internal_error : response :=
  with_status (jsonify [("error", JStr "Internal server error")]) 500.

(** The rules of the [@app.route] decorators, in the order of the file. *)
Definition routes : list (string * endpoint) :=
  [("/api/health", health_check_ep);
   ("/api/gainers", get_gainers_ep);
   ("/api/losers", get_losers_ep);
   ("/api/historical/<symbol>", get_historical_ep);
   ("/api/float/<symbol>", get_float_ep);
   ("/api/news/<symbol>", get_news_ep);
   ("/api/volume/<symbol>", get_volume_ep)].

(** The endpoints decorated with [@require_license]. *)
Definition protected (e : endpoint) : bool :=
  match e with
  | health_check_ep => false
  | _ => true
  end.

Section App.
Variable cfg : config.
(** The undecorated bodies of the proxied endpoints. *)
Variable proxy : endpoint → view.

Definition views (e : endpoint) : view :=
  match e with
  | health_check_ep => health_check cfg
  | _ => require_license cfg (proxy e)
  end.

Definition app : flask_app endpoint :=
  {| url_map := routes;
     view_functions := views;
     errorhandler := λ code,
       if decide (code = 404) then Some not_found
       else if decide (code = 500) then Some internal_error
       else None |}.
End App.

End ApiServer.

(** ** The application of app.py *)

Module App.

Inductive endpoint :=
| home_ep
| health_check_ep
| get_gainers_ep
| test_ep.

(** Lines 18-20. *)
Definition load_config (e : environ) : config :=
  {| POLYGON_API_KEY := getenv (env_POLYGON_API_KEY e) "";
     FINNHUB_API_KEY := Some (getenv (env_FINNHUB_API_KEY e) "");
     VALID_LICENSE_KEYS := load_license_keys e |}.

(** Lines 67-73. *)
Definition home : view := λ _ _ now,
  mret (jsonify
    [("message", JStr "ORB Scanner Secure API");
     ("status", JStr "running");
     ("timestamp", JIsoTime now)]).

(** Lines 77-82: the dictionary [health_check] returns at clock value
    [now]. *)
Definition health_check_response (cfg : config) (now : Z) : response :=
  jsonify
    [("status", JStr "healthy");
     ("timestamp", JIsoTime now);
     ("polygon_api_configured", JBool (truthy (Some (POLYGON_API_KEY cfg))));
     ("finnhub_api_configured", JBool (truthy (FINNHUB_API_KEY cfg)))].

(** Lines 75-82. *)
Definition health_check (cfg : config) : view := λ _ _ now,
  mret (health_check_response cfg now).

(** Lines 101-107. *)
Definition test (cfg : config) : view := λ _ _ _,
  mret (jsonify
    [("message", JStr "API is working!");
     ("polygon_key", JBool (truthy (Some (POLYGON_API_KEY cfg))));
     ("finnhub_key", JBool (truthy (FINNHUB_API_KEY cfg)))]).

Definition routes : list (string * endpoint) :=
  [("/", home_ep);
   ("/api/health", health_check_ep);
   ("/api/gainers", get_gainers_ep);
   ("/api/test", test_ep)].

Definition protected (e : endpoint) : bool :=
  match e with
  | get_gainers_ep => true
  | _ => false
  end.

Section App.
Variable cfg : config.
(** The undecorated body of [get_gainers]. *)
Variable proxy : view.

Definition views (e : endpoint) : view :=
  match e with
  | home_ep => home
  | health_check_ep => health_check cfg
  | get_gainers_ep => require_license cfg proxy
  | test_ep => test cfg
  end.

(** app.py registers no error handler. *)
Definition app : flask_app endpoint :=
  {| url_map := routes;
     view_functions := views;
     errorhandler := λ _, None |}.
End App.

End App.

(** ** The rate-limit algorithm of the specification *)

(** The mapping credential -> (count, window_start) that a dictionary of
    references denotes in a heap. *)
Definition denote (h : gmap loc entry) (d : gmap key loc) : gmap key entry :=
  omap (λ l, h !! l) d.

(** The mapping that the module-level dictionary of a state denotes. *)
Definition entries (w : world) : gmap key entry :=
  denote (heap w) (request_counts w).

(** The algorithm in the words of the specification (section 4.2), on the
    mapping credential -> (count, window_start); it is compared with
    [rate_limit_check] below.  The result is the decision ([true] is allow)
    and the new mapping. *)
Definition spec_rate_limit (m : gmap key entry) (credential : key) (now : Z)
  : bool * gmap key entry :=
  let reset := (true, <[credential := {| count := 1; timestamp := now |}]> m) in
  match m !! credential with
  | None => reset
  | Some e =>
      if bool_decide (timestamp e < now - RATE_LIMIT_WINDOW) then reset
      else if bool_decide (count e >= RATE_LIMIT_REQUESTS) then (false, m)
      else (true, <[credential := {| count := count e + 1;
                                     timestamp := timestamp e |}]> m)
  end.

(** A call follows the algorithm when it returns the algorithm's decision and
    leaves the mapping the algorithm computes. *)
Definition follows_algorithm (license_key : key) (now : Z) (w : world) : Prop :=
  ∃ b w', rate_limit_check license_key now w = Ok b w'
          ∧ (b, entries w') = spec_rate_limit (entries w) license_key now.

(** ** Reachable states, outcomes *)

(** The states the process can be in after any number of calls of
    [rate_limit_check], starting from [w0]. *)
Inductive reachable_from (w0 : world) : world → Prop :=
| reachable_start : reachable_from w0 w0
| reachable_call w license_key now :
    reachable_from w0 w →
    reachable_from w0 (final_world (rate_limit_check license_key now w)).


(** Whether a call let the request through: it returned [True].  A call that
    returned [False] and a call that raised both did not. *)
Definition allowed (r : result bool) : bool :=
  match r with
  | Ok b _ => b
  | Raise _ _ => false
  end.

(** No inner dictionary holds a count above the ceiling. *)
Definition below_ceiling (w : world) : Prop :=
  ∀ l e, heap w !! l = Some e → count e ≤ RATE_LIMIT_REQUESTS.

(** The credential is missing from the allow-list: no header, or a string
    that is not an element of [VALID_LICENSE_KEYS]. *)
Definition not_in_allow_list (cfg : config) (k : key) : Prop :=
  match k with
  | None => True
  | Some s => s ∉ VALID_LICENSE_KEYS cfg
  end.

(** The two fixed error responses of [require_license]. *)
Definition invalid_license_key : response :=
  {| status := 401; body := Json [("error", JStr "Invalid license key")] |}.
Definition rate_limit_exceeded : response :=
  {| status := 429; body := Json [("error", JStr "Rate limit exceeded")] |}.

(** A response body without its [timestamp] field. *)
Definition without_timestamp (p : payload) : payload :=
  match p with
  | Json fields => Json (filter (λ kv, kv.1 ≠ "timestamp") fields)
  | other => other
  end.

(** Two requests that differ at most in their [X-License-Key] header. *)
Definition same_up_to_license_key (r1 r2 : request) : Prop :=
  path r1 = path r2 ∧
  ∀ name, lower_string name ≠ lower_string "X-License-Key" →
          headers_get name (headers r1) = headers_get name (headers r2).

(** The credential passes the license gate of the specification: a non-empty
    string of the allow-list. *)
Definition in_allow_list (cfg : config) (k : key) : Prop :=
  match k with
  | Some s => s ≠ "" ∧ s ∈ VALID_LICENSE_KEYS cfg
  | None => False
  end.

#[global] Instance in_allow_list_dec cfg k : Decision (in_allow_list cfg k).
Proof. destruct k; apply _. Defined.

#[global] Instance not_in_allow_list_dec cfg k :
  Decision (not_in_allow_list cfg k).
Proof. destruct k; apply _. Defined.

(** The path is routed to an endpoint decorated with [@require_license]. *)
Definition protected_path {E} (routes : list (string * E))
    (protected : E → bool) (p : string) : bool :=
  match url_match routes p with
  | Some (e, _) => protected e
  | None => false
  end.

(** A request for a protected endpoint of api_server.py that carries a
    credential of the allow-list. *)
Definition licensed_request (cfg : config) (req : request) : Prop :=
  protected_path ApiServer.routes ApiServer.protected (path req) = true
  ∧ in_allow_list cfg (headers_get "X-License-Key" (headers req)).

#[global] Instance licensed_request_dec cfg req :
  Decision (licensed_request cfg req).
Proof. apply _. Defined.

(** A state in which the window of [license_key], opened at [window_start],
    is used up: its count has reached the ceiling. *)
Definition exhausted (license_key : key) (window_start : Z) : world :=
  {| heap := {[ 1%positive := {| count := RATE_LIMIT_REQUESTS;
                                 timestamp := window_start |} ]};
     request_counts := {[ license_key := 1%positive ]} |}.

(** The state after a sequence of calls of [rate_limit_check], each with its
    license key and clock value. *)
Fixpoint run_calls (calls : list (key * Z)) (w : world) : world :=
  match calls with
  | [] => w
  | (license_key, now) :: rest =>
      run_calls rest (final_world (rate_limit_check license_key now w))
  end.

(** A computation keeps a property of the state, whether it returns or
    raises. *)
Definition preserves {A} (P : world → Prop) (m : M A) : Prop :=
  ∀ w, P w → P (final_world (m w)).

(** ** Sample inputs *)

(** No variable set in the environment: the built-in allow-list. *)
Definition default_environ : environ :=
  {| env_POLYGON_API_KEY := None;
     env_FINNHUB_API_KEY := None;
     env_VALID_LICENSE_KEYS := None |}.

(** A GET request for a path, with or without an X-License-Key header. *)
Definition get (p : string) (license_key : key) : request :=
  {| path := p;
     headers := match license_key with
                | Some v => [("X-License-Key", v)]
                | None => []
                end |}.

(** An upstream that answers every proxied endpoint with an empty document. *)
Definition empty_upstream : view := λ _ _ _, mret
  {| status := 200; body := Forwarded "{}" |}.

(** The limit plus one requests for /api/gainers with a credential of the
    built-in allow-list, all read at clock value 0. *)
Definition burst : list (request * Z) :=
  replicate (Z.to_nat RATE_LIMIT_REQUESTS + 1)
            (get "/api/gainers" (Some "test-license-123"), 0).

(** * The other functions of the two files *)

(** The functions below are the ones the applications only use as the
    wrapped handlers or not at all: the date helper, the Finnhub key helpers,
    and the handlers that make one upstream call and forward its document.
    [fetch_polygon_historical], [get_historical] and [get_volume] are not
    modelled: they go through a pandas DataFrame, Python's [int] parser and a
    sum of floats. *)

(** ** Dates: [get_market_date] *)

(** A [datetime.date] is modelled by its proleptic Gregorian ordinal
    ([date.toordinal()]): day 1 is Monday 0001-01-01 and [date.max] is day
    3652059. *)
Definition valid_date (d : Z) : Prop := 1 ≤ d ≤ 3652059.

(** [date.weekday()]: Monday is 0 and Sunday is 6. *)
Definition weekday (d : Z) : Z := (d + 6) mod 7.

(** [d - timedelta(days=n)]; [None] stands for the [OverflowError] of a
    result outside the range of dates. *)
Definition date_minus_days (d n : Z) : option Z :=
  if bool_decide (valid_date (d - n)) then Some (d - n) else None.

(** [get_market_date] (api_server.py 91-101), for the value of
    [date.today()]. *)
Definition get_market_date (today : Z) : option Z :=
  if bool_decide (weekday today >= 5) then
    let days_back := weekday today - 4 in
    date_minus_days today days_back
  else Some today.

(** ** The Finnhub key helpers *)

(** [request.args.get(name)]: the first value given for the parameter in the
    query string, [None] when there is none. *)
Fixpoint args_get (name : string) (query : list (string * string)) : key :=
  match query with
  | [] => None
  | (n, v) :: rest => if String.eqb n name then Some v else args_get name rest
  end.

(** [get_finnhub_api_key] (api_server.py 107-114); [query] is
    [request.args]. *)
Definition get_finnhub_api_key (req : request)
    (query : list (string * string)) : M key :=
  let api_key := headers_get "X-Finnhub-API-Key" (headers req) in
  if negb (truthy api_key) then
    let api_key := args_get "finnhub_api_key" query in
    mret api_key
  else mret api_key.

(** [validate_finnhub_key] (api_server.py 116-120). *)
Definition validate_finnhub_key (api_key : key) : M bool :=
  if negb (truthy api_key) then mret false
  else
    match api_key with
    | Some s => mret (bool_decide (Z.of_nat (String.length s) > 0))
    | None => mret false
    end.

(** ** Upstream calls *)

(** A JSON document as [response.json()] returns it: [None], a [bool], an
    [int], a [float], a [str], a [list] or a [dict] (its items in order). *)
#[warnings="-register-all"]
Inductive pyjson :=
| PyNone
| PyBool (b : bool)
| PyInt (z : Z)
| PyFloat (f : SpecFloat.spec_float)
| PyStr (s : string)
| PyList (items : list pyjson)
| PyDict (items : list (string * pyjson)).

(** The truth value of a document in [if data:]. *)
Definition py_truth (data : pyjson) : bool :=
  match data with
  | PyNone => false
  | PyBool b => b
  | PyInt z => negb (Z.eqb z 0)
  | PyFloat (SpecFloat.S754_zero _) => false
  | PyFloat _ => true
  | PyStr EmptyString => false
  | PyStr _ => true
  | PyList [] => false
  | PyList _ => true
  | PyDict [] => false
  | PyDict _ => true
  end.

(** What [requests.get(url, params=params, timeout=15)] comes back with: an
    exception of the library (no connection, timeout, ...) or a response with
    its status code and, when the body is JSON, the decoded document. *)
Inductive http_outcome :=
| NoResponse
| HttpResponse (status_code : Z) (document : option pyjson).

(** The exceptions of the three statements that every [try] block of the
    files runs: [requests.get], [response.raise_for_status()] and
    [response.json()].  Each of them is caught by the [except Exception] of
    the function that makes the call. *)
Inductive fetch_error :=
| RequestException
| HTTPError (status_code : Z)
| JSONDecodeError.

(** [response.raise_for_status()] raises for the codes 400 to 599;
    [response.json()] raises when the body is not JSON. *)
Definition decode (o : http_outcome) : fetch_error + pyjson :=
  match o with
  | NoResponse => inl RequestException
  | HttpResponse status_code document =>
      if bool_decide (400 ≤ status_code < 600) then inl (HTTPError status_code)
      else match document with
           | Some data => inr data
           | None => inl JSONDecodeError
           end
  end.

(** [jsonify({'error': message}), code]. *)
Definition error_response (message : string) (code : Z) : response :=
  with_status (jsonify [("error", JStr message)]) code.

(** ** The handlers of api_server.py *)

Module Handlers.

Section Upstream.
Variable cfg : config.
(** The upstream: the outcome of [requests.get] for a URL, its parameters,
    its timeout and the clock value of the call. *)
Variable requests_get : string → list (string * string) → Z → Z → http_outcome.
(** The serialisation [jsonify] applies to a document; [None] when it
    raises, as the encoder does on a document nested deeper than the
    interpreter's recursion limit allows. *)
Variable dumps : pyjson → option string.

(** [jsonify(data)] for a document: the response with status 200, or [None]
    when the serialisation raises. *)
Definition forward (data : pyjson) : option response :=
  (λ document, {| status := 200; body := Forwarded document |}) <$> dumps data.

(** [return jsonify(data)] as the last statement of a [try] block whose
    [except Exception] branch returns [on_exception]. *)
Definition forward_or (on_exception : response) (data : pyjson) : response :=
  default on_exception (forward data).

(** [fetch_polygon_gainers] (lines 122-136). *)
Definition fetch_polygon_gainers (now : Z) : M pyjson :=
  let url := "https://api.polygon.io/v2/snapshot/locale/us/markets/stocks/gainers" in
  let params := [("apiKey", POLYGON_API_KEY cfg)] in
  match decode (requests_get url params 15 now) with
  | inr data => mret data
  | inl _ => mret PyNone
  end.

(** [fetch_polygon_float] (lines 191-205). *)
Definition fetch_polygon_float (symbol : string) (now : Z) : M pyjson :=
  let url := "https://api.polygon.io/v3/reference/tickers/" +:+ symbol in
  let params := [("apiKey", POLYGON_API_KEY cfg)] in
  match decode (requests_get url params 15 now) with
  | inr data => mret data
  | inl _ => mret PyNone
  end.

(** [fetch_polygon_news] (lines 207-225). *)
Definition fetch_polygon_news (symbol : string) (now : Z) : M pyjson :=
  let url := "https://api.polygon.io/v2/reference/news" in
  let params := [("ticker", symbol); ("limit", "10");
                 ("apiKey", POLYGON_API_KEY cfg)] in
  match decode (requests_get url params 15 now) with
  | inr data => mret data
  | inl _ => mret PyNone
  end.

(** [get_gainers] without its decorators (lines 244-254).  The fetch
    function catches its own exceptions; in the [try] block of the handler
    only [jsonify(data)] can raise, and the [except] of lines 252-254 then
    answers 'Internal server error'. *)
Definition get_gainers : view := λ _ _ now,
  data ← fetch_polygon_gainers now;
  if py_truth data then
    mret (forward_or (error_response "Internal server error" 500) data)
  else mret (error_response "Failed to fetch gainers" 500).

(** [get_losers] without its decorators (lines 258-272): one [try] block
    around the call, the decoding and [jsonify(data)]. *)
Definition get_losers : view := λ _ _ now,
  let url := "https://api.polygon.io/v2/snapshot/locale/us/markets/stocks/losers" in
  let params := [("apiKey", POLYGON_API_KEY cfg)] in
  match decode (requests_get url params 15 now) with
  | inr data =>
      mret (forward_or (error_response "Internal server error" 500) data)
  | inl _ => mret (error_response "Internal server error" 500)
  end.

(** [get_float] without its decorators (lines 294-305); the router passes the
    URL variable [symbol], and no other call of the function exists (Python
    would refuse one with a TypeError, which stands as [SystemError] here). *)
Definition get_float : view := λ args _ now,
  match args with
  | [symbol] =>
      data ← fetch_polygon_float symbol now;
      if py_truth data then
        mret (forward_or (error_response "Internal server error" 500) data)
      else mret (error_response "Failed to fetch float data" 500)
  | _ => raise SystemError
  end.

(** [get_news] without its decorators (lines 309-320). *)
Definition get_news : view := λ args _ now,
  match args with
  | [symbol] =>
      data ← fetch_polygon_news symbol now;
      if py_truth data then
        mret (forward_or (error_response "Internal server error" 500) data)
      else mret (error_response "Failed to fetch news" 500)
  | _ => raise SystemError
  end.

End Upstream.

End Handlers.

(** ** The handler of app.py *)

Module AppHandlers.

Section Upstream.
Variable cfg : config.
Variable requests_get : string → list (string * string) → Z → Z → http_outcome.
Variable dumps : pyjson → option string.

(** [get_gainers] without its decorators (app.py 86-99): one [try] block
    around the call, the decoding and [jsonify(data)]. *)
Definition get_gainers : view := λ _ _ now,
  let url := "https://api.polygon.io/v2/snapshot/locale/us/markets/stocks/gainers" in
  let params := [("apiKey", POLYGON_API_KEY cfg)] in
  match decode (requests_get url params 15 now) with
  | inr data =>
      mret (Handlers.forward_or dumps
              (error_response "Failed to fetch gainers" 500) data)
  | inl _ => mret (error_response "Failed to fetch gainers" 500)
  end.

End Upstream.

End AppHandlers.

(** ** Strings *)

(** [c in s] for a character. *)
Fixpoint contains (c : ascii) (s : string) : bool :=
  match s with
  | EmptyString => false
  | String a rest => (Ascii.eqb a c || contains c rest)%bool
  end.

(** ** The dictionaries of the open handlers of app.py *)

Module AppResponses.

(** Lines 69-73: the dictionary [home] returns at clock value [now]. *)
Definition home_response (now : Z) : response :=
  jsonify
    [("message", JStr "ORB Scanner Secure API");
     ("status", JStr "running");
     ("timestamp", JIsoTime now)].

(** Lines 103-107: the dictionary [test] returns. *)
Definition test_response (cfg : config) : response :=
  jsonify
    [("message", JStr "API is working!");
     ("polygon_key", JBool (truthy (Some (POLYGON_API_KEY cfg))));
     ("finnhub_key", JBool (truthy (FINNHUB_API_KEY cfg)))].

End AppResponses.

(** ** The paths the applications serve *)

(** What [match_segments] computes, as a relation between the segments of a
    rule, the segments of a path and the URL variables. *)
Fixpoint seg_match (pattern segs args : list string) : Prop :=
  match pattern, segs with
  | [], [] => args = []
  | p :: pattern', s :: segs' =>
      if is_variable p then
        s ≠ "" ∧ ∃ tl, args = s :: tl ∧ seg_match pattern' segs' tl
      else p = s ∧ seg_match pattern' segs' args
  | _, _ => False
  end.

(** [url_match] on the segments of a path. *)
Fixpoint url_match_segments {E} (url_map : list (string * E))
    (segs : list string) : option (E * list string) :=
  match url_map with
  | [] => None
  | (rule, e) :: rest =>
      match match_segments (split_on "/" rule) segs with
      | Some args => Some (e, args)
      | None => url_match_segments rest segs
      end
  end.

(** A path made of a prefix and one symbol, which is the URL variable: the
    symbol is not empty and contains no slash. *)
Definition symbol_path (prefix p : string) (args : list string) : Prop :=
  ∃ symbol, symbol ≠ "" ∧ contains "/" symbol = false
            ∧ p = prefix +:+ symbol ∧ args = [symbol].

(** The paths of api_server.py, endpoint by endpoint. *)
Definition api_server_serves (p : string) (e : ApiServer.endpoint)
    (args : list string) : Prop :=
  match e with
  | ApiServer.health_check_ep => p = "/api/health" ∧ args = []
  | ApiServer.get_gainers_ep => p = "/api/gainers" ∧ args = []
  | ApiServer.get_losers_ep => p = "/api/losers" ∧ args = []
  | ApiServer.get_historical_ep => symbol_path "/api/historical/" p args
  | ApiServer.get_float_ep => symbol_path "/api/float/" p args
  | ApiServer.get_news_ep => symbol_path "/api/news/" p args
  | ApiServer.get_volume_ep => symbol_path "/api/volume/" p args
  end.

(** The paths of app.py, endpoint by endpoint. *)
Definition app_serves (p : string) (e : App.endpoint)
    (args : list string) : Prop :=
  args = [] ∧
  p = match e with
      | App.home_ep => "/"
      | App.health_check_ep => "/api/health"
      | App.get_gainers_ep => "/api/gainers"
      | App.test_ep => "/api/test"
      end.

(** An upstream that answers every call with status 200 and an empty JSON
    object. *)
Definition empty_object_upstream
  : string → list (string * string) → Z → Z → http_outcome :=
  λ _ _ _ _, HttpResponse 200 (Some (PyDict [])).

(** A serialisation that succeeds on flat documents and fails on every
    document that holds a list or an object with items. *)
Definition sample_dumps (data : pyjson) : option string :=
  match data with
  | PyNone => Some "null"
  | PyBool true => Some "true"
  | PyBool false => Some "false"
  | PyStr _ => Some "text"
  | PyInt _ | PyFloat _ => Some "0"
  | PyList [] => Some "[]"
  | PyDict [] => Some "{}"
  | _ => None
  end.

(** ** Paths in normal form *)

(** No two slashes in a row. *)
Fixpoint no_repeated_slash (s : string) : bool :=
  match s with
  | EmptyString => true
  | String a rest =>
      match rest with
      | EmptyString => true
      | String b _ =>
          if (Ascii.eqb a "/" && Ascii.eqb b "/")%bool then false
          else no_repeated_slash rest
      end
  end.

(** A request path that the router of Flask matches against the rules of the
    program as it is: it starts with a slash, has no two slashes in a row,
    and is not under /static/.  On the other paths the router first drops
    extra slashes (and answers a redirect when the result matches a rule) or
    looks for a static file; [url_match] and [dispatch] model neither, and
    the statements about the response to arbitrary paths are for paths in
    this form. *)
Definition plain_path (p : string) : bool :=
  (String.prefix "/" p && no_repeated_slash p
   && negb (String.prefix "/static/" p))%bool.

(** ** The algorithm of the specification over a sequence of calls *)


(** ** Outcomes of a request *)

(** The credential passes [validate_license_key]. *)
Definition accepted (cfg : config) (k : key) : bool :=
  match k with
  | Some s => truthy k && bool_decide (s ∈ VALID_LICENSE_KEYS cfg)
  | None => false
  end.

(** * Properties *)

(** ** The definitions at work *)

Example split_default_keys :
  load_license_keys default_environ = ["test-license-123"; "prod-license-456"].
Proof. reflexivity. Qed.

Example split_keeps_empty_pieces : split_on "," "a,,b" = ["a"; ""; "b"].
Proof. reflexivity. Qed.

Example header_name_case :
  headers_get "X-License-Key" [("Accept", "*/*"); ("x-license-key", "k1")]
  = Some "k1".
Proof. reflexivity. Qed.

Example route_with_variable :
  url_match ApiServer.routes "/api/historical/AAPL"
  = Some (ApiServer.get_historical_ep, ["AAPL"]).
Proof. reflexivity. Qed.

Example route_variable_not_empty :
  url_match ApiServer.routes "/api/historical/" = None.
Proof. reflexivity. Qed.

Example route_without_prefix : url_match ApiServer.routes "/health" = None.
Proof. reflexivity. Qed.

Example first_licensed_request_api_server :
  dispatch (ApiServer.app (ApiServer.load_config default_environ)
                          (λ _, empty_upstream))
           (get "/api/gainers" (Some "test-license-123")) 0 initial_world
  = ({| status := 500;
        body := Json [("error", JStr "Internal server error")] |},
     initial_world).
Proof. reflexivity. Qed.

Example first_licensed_request_app :
  dispatch (App.app (App.load_config default_environ) empty_upstream)
           (get "/api/gainers" (Some "test-license-123")) 0 initial_world
  = ({| status := 500; body := DefaultPage |}, initial_world).
Proof. reflexivity. Qed.

(** ** Basic facts about the monad and the rate limiter's statements *)

Lemma preserves_ret {A} P (a : A) : preserves P (mret a).
Proof. intros w Hw. exact Hw. Qed.

Lemma preserves_raise {A} P e : preserves P (raise (A := A) e).
Proof. intros w Hw. exact Hw. Qed.

Lemma preserves_bind {A B} P (m : M A) (f : A → M B) :
  preserves P m → (∀ a, preserves P (f a)) → preserves P (m ≫= f).
Proof.
  intros Hm Hf w Hw. specialize (Hm w Hw).
  unfold mbind, M_bind. destruct (m w) as [a w'|e w']; cbn in *; [|done].
  by apply Hf.
Qed.

Lemma preserves_if {A} P (b : bool) (m1 m2 : M A) :
  (b = true → preserves P m1) → (b = false → preserves P m2) →
  preserves P (if b then m1 else m2).
Proof. destruct b; auto. Qed.

Lemma preserves_load_fast {A} P name (slot : option A) :
  preserves P (load_fast name slot).
Proof. destruct slot; [apply preserves_ret | apply preserves_raise]. Qed.

Lemma preserves_get_heap P : preserves P get_heap.
Proof. intros w Hw. exact Hw. Qed.

Lemma preserves_subscript P d k : preserves P (subscript d k).
Proof.
  unfold subscript.
  destruct (d !! k); [apply preserves_ret | apply preserves_raise].
Qed.

Lemma preserves_deref P l : preserves P (deref l).
Proof. intros w Hw. unfold deref. by destruct (heap w !! l). Qed.

Lemma alloc_keeps_dictionary rc e :
  preserves (λ w, request_counts w = rc) (alloc e).
Proof. intros w Hw. exact Hw. Qed.

Lemma store_keeps_dictionary rc l e :
  preserves (λ w, request_counts w = rc) (store l e).
Proof. intros w Hw. exact Hw. Qed.

Lemma alloc_keeps_ceiling e :
  count e ≤ RATE_LIMIT_REQUESTS → preserves below_ceiling (alloc e).
Proof.
  intros He w Hw l e'. cbn. rewrite lookup_insert.
  case_decide; [|by apply Hw]. by intros [= <-].
Qed.

Lemma store_keeps_ceiling l e :
  count e ≤ RATE_LIMIT_REQUESTS → preserves below_ceiling (store l e).
Proof.
  intros He w Hw l' e'. cbn. rewrite lookup_insert.
  case_decide; [|by apply Hw]. by intros [= <-].
Qed.

Create HintDb preserves.
#[export] Hint Resolve preserves_ret preserves_raise preserves_load_fast
  preserves_get_heap preserves_subscript preserves_deref
  alloc_keeps_dictionary store_keeps_dictionary : preserves.

(** One step through a computation, following its syntax. *)
Ltac preserves_step :=
  first [ apply preserves_bind; [|intros ?]
        | apply preserves_if;
            [intros ?%bool_decide_eq_true | intros ?%bool_decide_eq_false]
        | solve [eauto with preserves] ].

(** The first statement of [rate_limit_check] reads the local name
    [request_counts] before anything was assigned to it: the call raises
    [UnboundLocalError] and the state is the one it started from. *)
Lemma rate_limit_check_unbound license_key now w :
  rate_limit_check license_key now w
  = Raise (UnboundLocalError "request_counts") w.
Proof. reflexivity. Qed.

(** Whatever the frame, no statement of the body writes the module-level
    name: the dictionaries it builds stay in the frame. *)
Lemma body_keeps_module_dictionary license_key now slot w :
  request_counts (final_world (rate_limit_check_body license_key now slot w))
  = request_counts w.
Proof.
  cut (preserves (λ w', request_counts w' = request_counts w)
         (rate_limit_check_body license_key now slot)).
  { intros H. by apply H. }
  unfold rate_limit_check_body.
  repeat preserves_step.
Qed.

(** Whatever the frame, the body keeps every count at or below the ceiling:
    a new inner dictionary starts at 1, and line 73 is reached only below
    [RATE_LIMIT_REQUESTS]. *)
Lemma body_keeps_ceiling license_key now slot :
  preserves below_ceiling (rate_limit_check_body license_key now slot).
Proof.
  intros w Hw.
  pose proof (alloc_keeps_ceiling {| count := 1; timestamp := now |}
                ltac:(done) w Hw) as Hnew.
  unfold rate_limit_check_body, mbind, mret, M_bind, M_ret.
  destruct slot as [d|]; cbn; [|done].
  set (d' := filter _ d).
  case_bool_decide; cbn; [done|].
  unfold subscript.
  destruct (d' !! license_key) as [l|] eqn:Hl; cbn; [|done].
  unfold deref.
  destruct (heap w !! l) as [e|] eqn:He; cbn; [|done].
  case_bool_decide; cbn; [done|].
  rewrite He; cbn.
  case_bool_decide as Hc; cbn; [done|].
  rewrite He; cbn.
  apply (store_keeps_ceiling l); [|done].
  cbn. unfold RATE_LIMIT_REQUESTS in *. lia.
Qed.

Lemma run_calls_unchanged calls w : run_calls calls w = w.
Proof.
  revert w. induction calls as [|[k now] rest IH]; intros w; [done|].
  cbn. by rewrite IH.
Qed.

Lemma initial_below_ceiling : below_ceiling initial_world.
Proof. intros l e. cbn. by rewrite lookup_empty. Qed.

Lemma reachable_below_ceiling w0 w :
  below_ceiling w0 → reachable_from w0 w → below_ceiling w.
Proof.
  intros Hw0. induction 1 as [|w k now _ IH]; [done|].
  by apply body_keeps_ceiling.
Qed.

Lemma entries_lookup w k : entries w !! k = entry_of w k.
Proof. unfold entries, denote, entry_of. by rewrite lookup_omap. Qed.

(** The branches of the body are those of the algorithm.  In a frame in
    which the local name already holds a dictionary [d] when line 60 runs,
    the body takes the decision the algorithm takes on the mapping [d]
    denotes, provided the window start of the credential is not exactly
    [now - RATE_LIMIT_WINDOW] (there line 60 drops the entry and the call
    starts a new window, where the algorithm looks at the count).  No call
    runs in such a frame: see [rate_limit_check_unbound]. *)
Lemma body_decides_like_algorithm license_key now d w :
  (∀ l, d !! license_key = Some l → is_Some (heap w !! l)) →
  (∀ e, denote (heap w) d !! license_key = Some e →
        timestamp e ≠ now - RATE_LIMIT_WINDOW) →
  allowed (rate_limit_check_body license_key now (Some d) w)
  = (spec_rate_limit (denote (heap w) d) license_key now).1.
Proof.
  intros Hlive Hedge.
  unfold rate_limit_check_body, spec_rate_limit, mbind, mret, M_bind, M_ret.
  cbn.
  remember (filter (λ kv : key * loc,
              newer_than (heap w) (now - RATE_LIMIT_WINDOW) kv.2 = true) d)
    as d' eqn:Hd'.
  unfold denote in *. rewrite lookup_omap in *.
  destruct (d !! license_key) as [l|] eqn:Hl; cbn in *.
  - destruct (Hlive l eq_refl) as [e He]. rewrite He in *.
    specialize (Hedge e eq_refl).
    destruct (decide (now - RATE_LIMIT_WINDOW < timestamp e)) as [Hnew|Hold].
    + assert (d' !! license_key = Some l) as Hl'.
      { rewrite Hd'. apply map_lookup_filter_Some. split; [done|].
        cbn. unfold newer_than. rewrite He. by apply bool_decide_eq_true_2. }
      rewrite (bool_decide_eq_false_2 (d' !! license_key = None));
        [|by rewrite Hl'].
      cbn. unfold subscript. rewrite Hl'. cbn. unfold deref. rewrite He. cbn.
      rewrite !bool_decide_eq_false_2 by lia.
      rewrite He. cbn.
      case_bool_decide; cbn; [done|]. by rewrite He.
    + assert (d' !! license_key = None) as Hl'.
      { rewrite Hd'. apply map_lookup_filter_None. right. intros l' Hl'. cbn.
        assert (l' = l) as -> by congruence.
        unfold newer_than. rewrite He. rewrite bool_decide_eq_false_2; done. }
      rewrite (bool_decide_eq_true_2 (d' !! license_key = None)) by done. cbn.
      rewrite bool_decide_eq_true_2 by lia. done.
  - assert (d' !! license_key = None) as Hl'.
    { rewrite Hd'. apply map_lookup_filter_None. by left. }
    by rewrite (bool_decide_eq_true_2 (d' !! license_key = None)).
Qed.

(** ** The license gate *)

Lemma validate_license_key_pure cfg license_key w :
  validate_license_key cfg license_key w
  = Ok (match license_key with
        | Some s => truthy license_key && bool_decide (s ∈ VALID_LICENSE_KEYS cfg)
        | None => false
        end) w.
Proof. by destruct license_key as [[|c s]|]. Qed.

Lemma validate_not_in_allow_list cfg license_key w :
  not_in_allow_list cfg license_key →
  validate_license_key cfg license_key w = Ok false w.
Proof.
  rewrite validate_license_key_pure.
  destruct license_key as [s|]; [|done]. cbn. intros Hs.
  by rewrite (bool_decide_eq_false_2 _ Hs), andb_false_r.
Qed.

Lemma validate_in_allow_list cfg license_key w :
  in_allow_list cfg license_key →
  validate_license_key cfg license_key w = Ok true w.
Proof.
  destruct license_key as [s|]; [|done]. intros [Hne Hin].
  rewrite validate_license_key_pure.
  destruct s as [|c s]; [done|]. cbn. by rewrite bool_decide_eq_true_2.
Qed.

(** C3.  For every input string, [validate_license_key] returns valid exactly
    when the string is non-empty and an element of the configured allow-list,
    and invalid otherwise; the call returns (it never raises) and leaves the
    whole process state, the rate-limit map included, as it found it. *)
Theorem validate_license_key_spec (cfg : config) (s : string) (w : world) :
  ∃ valid : bool,
    validate_license_key cfg (Some s) w = Ok valid w
    ∧ (valid = true ↔ s ≠ "" ∧ s ∈ VALID_LICENSE_KEYS cfg).
Proof.
  rewrite validate_license_key_pure. eexists; split; [done|].
  destruct s as [|c s]; cbn.
  - split; [done | by intros [? _]].
  - rewrite bool_decide_eq_true. split; [done | by intros [_ ?]].
Qed.

(** C9.  Whatever the allow-list, [validate_license_key] answers invalid on
    the empty string, also when the allow-list contains the empty string:
    with the environment variable VALID_LICENSE_KEYS set to the empty string
    the configured list is [['']], the empty string is an element of it, and
    the answer is still invalid, in both applications. *)
Theorem validate_empty_string_invalid :
  (∀ cfg w, validate_license_key cfg (Some "") w = Ok false w)
  ∧ (∀ polygon finnhub,
       let e := {| env_POLYGON_API_KEY := polygon;
                   env_FINNHUB_API_KEY := finnhub;
                   env_VALID_LICENSE_KEYS := Some "" |} in
       load_license_keys e = [""]
       ∧ "" ∈ VALID_LICENSE_KEYS (ApiServer.load_config e)
       ∧ "" ∈ VALID_LICENSE_KEYS (App.load_config e)
       ∧ (∀ w, validate_license_key (ApiServer.load_config e) (Some "") w
               = Ok false w)
       ∧ (∀ w, validate_license_key (App.load_config e) (Some "") w
               = Ok false w)).
Proof.
  split; [done|]. intros polygon finnhub e.
  repeat split; try done; cbn; apply list_elem_of_here.
Qed.

(** ** The rate limiter *)

(** C1.  On the code the claim fails at every input: the claim says that a
    call of [rate_limit_check] follows the algorithm of the specification
    (reset and allow, reject, or increment and allow); the call instead
    raises [UnboundLocalError] on its first statement, for every license key,
    clock value and state, leaves the state as it was, and so never returns
    the decision of the algorithm. *)
Theorem rate_limit_check_raises_instead_of_algorithm
    (license_key : key) (now : Z) (w : world) :
  rate_limit_check license_key now w
  = Raise (UnboundLocalError "request_counts") w
  ∧ ¬ follows_algorithm license_key now w
  ∧ spec_rate_limit (entries initial_world) license_key now
    = (true, {[ license_key := {| count := 1; timestamp := now |} ]})
  ∧ allowed (rate_limit_check license_key now initial_world) = false
  ∧ entries (final_world (rate_limit_check license_key now initial_world)) = ∅.
Proof.
  split; [done|]. split.
  { intros (b & w' & Hcall & _). by rewrite rate_limit_check_unbound in Hcall. }
  assert (entries initial_world = ∅) as Hempty by apply omap_empty.
  split; [|by rewrite rate_limit_check_unbound].
  unfold spec_rate_limit. rewrite Hempty. by rewrite lookup_empty.
Qed.

(** C2.  The pruning step never changes the shared rate-limit map.  In any
    frame the dictionary built by the comprehension is bound to the local
    name, so the module-level dictionary is the same after the body as
    before; a call of [rate_limit_check] leaves the state as it found it; and
    after any sequence of calls every credential has the entry it had before,
    so no entry is ever removed. *)
Theorem pruning_leaves_shared_map (license_key : key) (now : Z) (w : world) :
  (∀ slot,
     request_counts (final_world (rate_limit_check_body license_key now slot w))
     = request_counts w)
  ∧ final_world (rate_limit_check license_key now w) = w
  ∧ (∀ calls k,
       request_counts (run_calls calls w) !! k = request_counts w !! k
       ∧ entry_of (run_calls calls w) k = entry_of w k).
Proof.
  split; [intros slot; apply body_keeps_module_dictionary|].
  split; [done|].
  intros calls k. by rewrite run_calls_unchanged.
Qed.

Lemma exhausted_below_ceiling license_key window_start :
  below_ceiling (exhausted license_key window_start).
Proof.
  intros l e. unfold exhausted. cbn. rewrite lookup_singleton.
  case_decide; [|done]. by intros [= <-].
Qed.

Lemma exhausted_entry license_key window_start :
  entry_of (exhausted license_key window_start) license_key
  = Some {| count := RATE_LIMIT_REQUESTS; timestamp := window_start |}.
Proof.
  unfold entry_of, exhausted. cbn.
  rewrite lookup_singleton_eq. cbn. by rewrite lookup_singleton_eq.
Qed.

(** C5.  On the code the claim fails: take a credential whose window, opened
    at [window_start], is used up, and a request that arrives strictly after
    [window_start + RATE_LIMIT_WINDOW].  The algorithm of the specification
    resets the counter to 1 with the new window start and allows; the call of
    [rate_limit_check] raises [UnboundLocalError], does not allow, and the
    entry keeps its count at the ceiling and its old window start.  The same
    holds for the process as it runs: after as many calls at [window_start]
    as the limit, the call at the later time is not allowed and the map has
    no entry with count 1 for the credential; it has no entry at all. *)
Theorem elapsed_window_not_reset (license_key : key) (window_start now : Z) :
  window_start + RATE_LIMIT_WINDOW < now →
  let w := exhausted license_key window_start in
  let used_up := {| count := RATE_LIMIT_REQUESTS; timestamp := window_start |} in
  let calls := replicate (Z.to_nat RATE_LIMIT_REQUESTS)
                         (license_key, window_start) in
  (entry_of w license_key = Some used_up
   ∧ spec_rate_limit (entries w) license_key now
     = (true, <[license_key := {| count := 1; timestamp := now |}]> (entries w))
   ∧ rate_limit_check license_key now w
     = Raise (UnboundLocalError "request_counts") w
   ∧ allowed (rate_limit_check license_key now w) = false
   ∧ entry_of (final_world (rate_limit_check license_key now w)) license_key
     = Some used_up)
  ∧ (allowed (rate_limit_check license_key now (run_calls calls initial_world))
     = false
     ∧ entry_of (run_calls (calls ++ [(license_key, now)]) initial_world)
                license_key
       = None).
Proof.
  intros Hlate w used_up calls.
  pose proof (exhausted_entry license_key window_start) as Hentry.
  split.
  - repeat split; try done.
    unfold spec_rate_limit. rewrite entries_lookup.
    unfold w. rewrite Hentry. cbn.
    rewrite bool_decide_eq_true_2; [done | lia].
  - by rewrite !run_calls_unchanged.
Qed.

Lemma elapsed_window_not_reset_witness :
  0 + RATE_LIMIT_WINDOW < 61
  ∧ rate_limit_check (Some "test-license-123") 61
      (exhausted (Some "test-license-123") 0)
    = Raise (UnboundLocalError "request_counts")
        (exhausted (Some "test-license-123") 0).
Proof.
  split; [reflexivity|].
  apply (elapsed_window_not_reset (Some "test-license-123") 0 61).
  reflexivity.
Defined.







(** ** The decorated handlers *)

(** With a credential that is not in the allow-list the decorated function
    answers 401 and nothing else runs. *)
Lemma require_license_invalid cfg f args req now w :
  not_in_allow_list cfg (headers_get "X-License-Key" (headers req)) →
  require_license cfg f args req now w = Ok invalid_license_key w.
Proof.
  intros Hk. unfold require_license, mbind, M_bind.
  by rewrite (validate_not_in_allow_list _ _ _ Hk).
Qed.

(** With a credential of the allow-list the decorated function reaches
    [rate_limit_check], whose exception leaves it: neither the 429 branch nor
    the wrapped handler runs. *)
Lemma require_license_valid cfg f args req now w :
  in_allow_list cfg (headers_get "X-License-Key" (headers req)) →
  require_license cfg f args req now w
  = Raise (UnboundLocalError "request_counts") w.
Proof.
  intros Hk. unfold require_license, mbind, M_bind.
  by rewrite (validate_in_allow_list _ _ _ Hk).
Qed.

Lemma protected_path_inv {E} (routes : list (string * E)) protected p :
  protected_path routes protected p = true →
  ∃ e args, url_match routes p = Some (e, args) ∧ protected e = true.
Proof.
  unfold protected_path.
  destruct (url_match routes p) as [[e args]|]; [|done]. eauto.
Qed.

Lemma api_server_protected_view cfg proxy e :
  ApiServer.protected e = true →
  ApiServer.views cfg proxy e = require_license cfg (proxy e).
Proof. by destruct e. Qed.

Lemma app_protected_view cfg proxy e :
  App.protected e = true →
  App.views cfg proxy e = require_license cfg proxy.
Proof. by destruct e. Qed.

Lemma dispatch_licensed cfg proxy req now w :
  licensed_request cfg req →
  dispatch (ApiServer.app cfg proxy) req now w = (ApiServer.internal_error, w).
Proof.
  intros [(e & args & Hroute & Hprot)%protected_path_inv Hk].
  unfold dispatch. cbn [url_map view_functions ApiServer.app].
  rewrite Hroute, (api_server_protected_view _ _ _ Hprot).
  by rewrite (require_license_valid _ _ _ _ _ _ Hk).
Qed.

(** C4.  On the code the claim fails: requests for protected endpoints of
    api_server.py that carry a credential of the allow-list are all answered
    500 with the body of [internal_error], however many there are and
    whatever their clock values, and the state stays as it was; so the
    request after the limit is answered 500 like the ones before it, where
    the claim says 429 with the body [{error: "Rate limit exceeded"}]. *)
Theorem licensed_requests_all_get_500 cfg proxy (reqs : list (request * Z)) w :
  Forall (λ rq, licensed_request cfg rq.1) reqs →
  serve (ApiServer.app cfg proxy) reqs w
  = (replicate (length reqs) ApiServer.internal_error, w)
  ∧ rate_limit_exceeded ∉ (serve (ApiServer.app cfg proxy) reqs w).1.
Proof.
  intros Hreqs.
  assert (serve (ApiServer.app cfg proxy) reqs w
          = (replicate (length reqs) ApiServer.internal_error, w)) as Hserve.
  { induction Hreqs as [|[req now] rest Hreq _ IH]; [done|].
    cbn [serve length replicate]. cbn in Hreq.
    by rewrite (dispatch_licensed _ _ _ _ _ Hreq), IH. }
  split; [done|]. rewrite Hserve. cbn.
  by intros [? _]%elem_of_replicate.
Qed.

Lemma licensed_requests_all_get_500_witness :
  Forall (λ rq, licensed_request (ApiServer.load_config default_environ) rq.1)
         burst
  ∧ (serve (ApiServer.app (ApiServer.load_config default_environ)
                          (λ _, empty_upstream)) burst initial_world).1
      !! 100%nat
    = Some ApiServer.internal_error.
Proof.
  assert (Forall (λ rq, licensed_request
                          (ApiServer.load_config default_environ) rq.1) burst)
    as Hburst.
  { apply Forall_replicate. vm_compute. repeat split; try done.
    apply list_elem_of_here. }
  split; [exact Hburst|].
  destruct (licensed_requests_all_get_500
              (ApiServer.load_config default_environ) (λ _, empty_upstream)
              burst initial_world Hburst) as [-> _].
  reflexivity.
Defined.

(** C7.  For every credential that is not in the configured allow-list, a
    missing X-License-Key header included, the decorated function of
    [require_license] answers 401 with the body
    [{error: "Invalid license key"}] around any handler, and so does every
    protected endpoint of api_server.py and of app.py; the process state, the
    rate-limit map included, is left as it was. *)
Theorem invalid_key_gets_401 cfg (req : request) (now : Z) (w : world) :
  not_in_allow_list cfg (headers_get "X-License-Key" (headers req)) →
  (∀ f args, require_license cfg f args req now w = Ok invalid_license_key w)
  ∧ (∀ proxy,
       protected_path ApiServer.routes ApiServer.protected (path req) = true →
       dispatch (ApiServer.app cfg proxy) req now w = (invalid_license_key, w))
  ∧ (∀ proxy,
       protected_path App.routes App.protected (path req) = true →
       dispatch (App.app cfg proxy) req now w = (invalid_license_key, w)).
Proof.
  intros Hk. split; [|split].
  - intros f args. by apply require_license_invalid.
  - intros proxy (e & args & Hroute & Hprot)%protected_path_inv.
    unfold dispatch. cbn [url_map view_functions ApiServer.app].
    rewrite Hroute, (api_server_protected_view _ _ _ Hprot).
    by rewrite (require_license_invalid _ _ _ _ _ _ Hk).
  - intros proxy (e & args & Hroute & Hprot)%protected_path_inv.
    unfold dispatch. cbn [url_map view_functions App.app].
    rewrite Hroute, (app_protected_view _ _ _ Hprot).
    by rewrite (require_license_invalid _ _ _ _ _ _ Hk).
Qed.

Lemma invalid_key_gets_401_witness :
  not_in_allow_list (ApiServer.load_config default_environ)
    (headers_get "X-License-Key" (headers (get "/api/news/AAPL" None)))
  ∧ dispatch (ApiServer.app (ApiServer.load_config default_environ)
                            (λ _, empty_upstream))
             (get "/api/news/AAPL" None) 0 initial_world
    = (invalid_license_key, initial_world).
Proof.
  split; [exact I|].
  destruct (invalid_key_gets_401 (ApiServer.load_config default_environ)
              (get "/api/news/AAPL" None) 0 initial_world I) as (_ & Happ & _).
  apply Happ. reflexivity.
Defined.

(** ** Unknown routes and the health endpoint *)



(** C10.  The health endpoint is neither license-gated nor rate-limited, in
    api_server.py and in app.py: two requests to /api/health that differ at
    most in the X-License-Key header get the same status and the same body
    up to the timestamp field (the same response when read at the same
    clock value), whatever the state, and each leaves the state, the
    rate-limit map included, as it was. *)
Theorem health_check_ignores_license_key cfg
    (r1 r2 : request) (t1 t2 : Z) (w1 w2 : world) :
  path r1 = "/api/health" →
  same_up_to_license_key r1 r2 →
  (∀ proxy,
     let o1 := dispatch (ApiServer.app cfg proxy) r1 t1 w1 in
     let o2 := dispatch (ApiServer.app cfg proxy) r2 t2 w2 in
     status o1.1 = 200 ∧ status o2.1 = 200
     ∧ without_timestamp (body o1.1) = without_timestamp (body o2.1)
     ∧ o1.1 = ApiServer.health_check_response cfg t1
     ∧ o2.1 = ApiServer.health_check_response cfg t2
     ∧ o1.2 = w1 ∧ o2.2 = w2)
  ∧ (∀ proxy,
     let o1 := dispatch (App.app cfg proxy) r1 t1 w1 in
     let o2 := dispatch (App.app cfg proxy) r2 t2 w2 in
     status o1.1 = 200 ∧ status o2.1 = 200
     ∧ without_timestamp (body o1.1) = without_timestamp (body o2.1)
     ∧ o1.1 = App.health_check_response cfg t1
     ∧ o2.1 = App.health_check_response cfg t2
     ∧ o1.2 = w1 ∧ o2.2 = w2).
Proof.
  intros Hp1 [Hsame _].
  assert (path r2 = "/api/health") as Hp2 by congruence.
  split; intros proxy; unfold dispatch;
    cbn [url_map view_functions ApiServer.app App.app];
    rewrite Hp1, Hp2; cbn; done.
Qed.

Lemma health_check_ignores_license_key_witness :
  let r1 := get "/api/health" (Some "no-such-license") in
  let r2 := get "/api/health" None in
  let cfg := ApiServer.load_config default_environ in
  (path r1 = "/api/health" ∧ same_up_to_license_key r1 r2)
  ∧ dispatch (ApiServer.app cfg (λ _, empty_upstream)) r1 5 initial_world
    = (ApiServer.health_check_response cfg 5, initial_world)
  ∧ dispatch (ApiServer.app cfg (λ _, empty_upstream)) r2 5 initial_world
    = (ApiServer.health_check_response cfg 5, initial_world).
Proof.
  intros r1 r2 cfg.
  assert (same_up_to_license_key r1 r2) as Hsame.
  { split; [reflexivity|]. intros name Hname.
    unfold r1, r2, get. cbn [headers headers_get].
    destruct (String.eqb_spec (lower_string "X-License-Key")
                              (lower_string name)) as [Heq|_]; [|reflexivity].
    by destruct Hname. }
  split; [split; [reflexivity | exact Hsame]|].
  destruct (health_check_ignores_license_key cfg r1 r2 5 5
              initial_world initial_world eq_refl Hsame) as [Hapi _].
  specialize (Hapi (λ _, empty_upstream)).
  cbv zeta in Hapi. destruct Hapi as (_ & _ & _ & H1 & H2 & Hw1 & Hw2).
  split; apply injective_projections; assumption.
Defined.

(** * Properties of the other functions *)

(** ** Dates *)

Lemma weekday_range d : 0 ≤ weekday d < 7.
Proof. unfold weekday. apply Z.mod_pos_bound. lia. Qed.

(** X1.  For every date [date.today()] can be, [get_market_date] returns a
    date (the subtraction never leaves the range of dates), the date is a
    weekday, Monday to Friday, and it is today or one of the two days before
    it. *)
Theorem get_market_date_weekday (today : Z) :
  valid_date today →
  ∃ d, get_market_date today = Some d
       ∧ valid_date d ∧ weekday d < 5 ∧ today - 2 ≤ d ≤ today.
Proof.
  intros Hvalid. unfold get_market_date, date_minus_days.
  case_bool_decide as Hweekend.
  - assert (valid_date (today - (weekday today - 4))
            ∧ weekday (today - (weekday today - 4)) < 5
            ∧ today - 2 ≤ today - (weekday today - 4) ≤ today) as (Hv & Hw & Hb).
    { unfold valid_date, weekday in *.
      Z.to_euclidean_division_equations. lia. }
    rewrite bool_decide_eq_true_2 by done. by eexists.
  - eexists; split; [done|]. unfold valid_date in *. lia.
Qed.

Lemma get_market_date_weekday_witness :
  valid_date 739920
  ∧ ∃ d, get_market_date 739920 = Some d
         ∧ valid_date d ∧ weekday d < 5 ∧ 739920 - 2 ≤ d ≤ 739920.
Proof.
  assert (valid_date 739920) as Hvalid by (unfold valid_date; lia).
  split; [exact Hvalid|].
  exact (get_market_date_weekday 739920 Hvalid).
Defined.

(** X2.  The date [get_market_date] returns is the latest weekday that is
    not after today: every weekday up to today is on or before it, a weekday
    is returned as it is, and the function returns its own result
    unchanged. *)
Theorem get_market_date_latest_weekday (today m : Z) :
  valid_date today →
  get_market_date today = Some m →
  (∀ d, d ≤ today → weekday d < 5 → d ≤ m)
  ∧ (weekday today < 5 → m = today)
  ∧ get_market_date m = Some m.
Proof.
  intros Hvalid Hm.
  destruct (get_market_date_weekday today Hvalid) as (m' & Hm' & Hv & Hw & Hb).
  assert (m' = m) as -> by congruence.
  split; [|split].
  - intros d Hd Hwd.
    unfold get_market_date, date_minus_days in Hm.
    case_bool_decide as Hweekend; [|simplify_eq; lia].
    case_bool_decide; [|done]. simplify_eq.
    unfold weekday in *. Z.to_euclidean_division_equations. lia.
  - intros Hwd. unfold get_market_date in Hm.
    rewrite bool_decide_eq_false_2 in Hm by lia. congruence.
  - unfold get_market_date. by rewrite bool_decide_eq_false_2 by lia.
Qed.

Lemma get_market_date_latest_weekday_witness :
  (valid_date 739921 ∧ get_market_date 739921 = Some 739919)
  ∧ get_market_date 739919 = Some 739919.
Proof.
  assert (valid_date 739921) as Hvalid by (unfold valid_date; lia).
  assert (get_market_date 739921 = Some 739919) as Hm by reflexivity.
  split; [split; [exact Hvalid | exact Hm]|].
  apply (get_market_date_latest_weekday 739921 739919 Hvalid Hm).
Defined.

(** ** The Finnhub key helpers *)

Lemma validate_finnhub_key_truthy api_key w :
  validate_finnhub_key api_key w = Ok (truthy api_key) w.
Proof.
  destruct api_key as [[|c s]|]; [done| |done].
  unfold validate_finnhub_key. cbn [truthy negb].
  by rewrite bool_decide_eq_true_2 by (cbn; lia).
Qed.

(** X3.  [get_finnhub_api_key] returns the X-Finnhub-API-Key header when it
    is present and not empty, and otherwise the query parameter
    finnhub_api_key (which may be missing or empty); [validate_finnhub_key]
    applied to the result answers true exactly when the header or the
    parameter is a non-empty string.  Neither changes the state. *)
Theorem finnhub_key_header_first (req : request)
    (query : list (string * string)) (w : world) :
  let header := headers_get "X-Finnhub-API-Key" (headers req) in
  let param := args_get "finnhub_api_key" query in
  get_finnhub_api_key req query w
  = Ok (if truthy header then header else param) w
  ∧ (get_finnhub_api_key req query ≫= validate_finnhub_key) w
    = Ok (truthy header || truthy param) w.
Proof.
  intros header param. unfold get_finnhub_api_key, mbind, M_bind. fold header.
  destruct (truthy header) eqn:Hh; cbn.
  - split; [done|]. by rewrite validate_finnhub_key_truthy, Hh.
  - split; [done|]. by rewrite validate_finnhub_key_truthy.
Qed.

(** ** The allow-list read from the environment *)

Lemma split_on_not_nil sep s : split_on sep s ≠ [].
Proof.
  destruct s as [|c rest]; [done|]. cbn.
  destruct (Ascii.eqb c sep); [done|]. by destruct (split_on sep rest).
Qed.

Lemma split_on_concat sep s :
  String.concat (String sep "") (split_on sep s) = s.
Proof.
  induction s as [|c rest IH]; [done|]. cbn [split_on].
  destruct (Ascii.eqb_spec c sep) as [->|Hne].
  - pose proof (split_on_not_nil sep rest) as Hnil.
    destruct (split_on sep rest) as [|piece pieces]; [done|].
    cbn [String.concat] in *. rewrite IH. reflexivity.
  - destruct (split_on sep rest) as [|piece [|piece' pieces]].
    + cbn [String.concat] in *. by rewrite <- IH.
    + cbn [String.concat] in *. by rewrite IH.
    + cbn [String.concat] in *. rewrite <- IH. reflexivity.
Qed.

Lemma split_on_no_sep sep s :
  Forall (λ piece, contains sep piece = false) (split_on sep s).
Proof.
  induction s as [|c rest IH]; [by repeat constructor|]. cbn [split_on].
  destruct (Ascii.eqb_spec c sep) as [->|Hne].
  - by constructor.
  - destruct (split_on sep rest) as [|piece pieces];
      [repeat constructor; cbn; by rewrite (proj2 (Ascii.eqb_neq _ _) Hne)|].
    inversion IH; subst. constructor; [|done].
    cbn. by rewrite (proj2 (Ascii.eqb_neq _ _) Hne).
Qed.

(** X4.  The allow-list is the configured string cut at its commas and
    nothing else: joining [VALID_LICENSE_KEYS] with commas gives back the
    value of the environment variable (or the built-in default), so no piece
    is trimmed, dropped or merged; the list is never empty and no key in it
    contains a comma. *)
Theorem license_keys_round_trip (e : environ) :
  String.concat ","
    (load_license_keys e)
  = getenv (env_VALID_LICENSE_KEYS e) "test-license-123,prod-license-456"
  ∧ load_license_keys e ≠ []
  ∧ Forall (λ k, contains "," k = false) (load_license_keys e).
Proof.
  unfold load_license_keys. split; [apply split_on_concat|].
  split; [apply split_on_not_nil | apply split_on_no_sep].
Qed.

Lemma validate_accepted cfg license_key w :
  validate_license_key cfg license_key w = Ok (accepted cfg license_key) w.
Proof. apply validate_license_key_pure. Qed.

Lemma accepted_elem_of cfg s :
  accepted cfg (Some s) = true → s ∈ VALID_LICENSE_KEYS cfg.
Proof.
  unfold accepted. intros [_ Hin]%andb_true_iff.
  by apply bool_decide_eq_true in Hin.
Qed.

(** X5.  Whatever the environment, a credential that contains a comma is
    never valid, in either application: the allow-list is cut at every comma,
    so no key of it contains one. *)
Theorem comma_key_never_valid (e : environ) (s : string) (w : world) :
  contains "," s = true →
  validate_license_key (ApiServer.load_config e) (Some s) w = Ok false w
  ∧ validate_license_key (App.load_config e) (Some s) w = Ok false w.
Proof.
  intros Hcomma.
  assert (s ∉ load_license_keys e) as Hnot.
  { intros Hin.
    pose proof (split_on_no_sep "," (getenv (env_VALID_LICENSE_KEYS e)
                  "test-license-123,prod-license-456")) as Hall.
    rewrite Forall_forall in Hall. specialize (Hall s Hin). congruence. }
  split; rewrite validate_accepted; f_equal;
    (destruct (accepted _ (Some s)) eqn:Hacc; [|done]);
    by apply accepted_elem_of in Hacc.
Qed.

Lemma comma_key_never_valid_witness :
  contains "," "test-license-123,prod-license-456" = true
  ∧ validate_license_key (ApiServer.load_config default_environ)
      (Some "test-license-123,prod-license-456") initial_world
    = Ok false initial_world.
Proof.
  split; [reflexivity|].
  apply (comma_key_never_valid default_environ
           "test-license-123,prod-license-456" initial_world).
  reflexivity.
Defined.

(** X7.  When VALID_LICENSE_KEYS is not set in the environment, the valid
    credentials are exactly the two keys written in the source,
    test-license-123 and prod-license-456, in both applications. *)
Theorem unset_allow_list_accepts_builtin_keys (e : environ) (k : key)
    (w : world) :
  env_VALID_LICENSE_KEYS e = None →
  let builtin := bool_decide (k = Some "test-license-123"
                              ∨ k = Some "prod-license-456") in
  validate_license_key (ApiServer.load_config e) k w = Ok builtin w
  ∧ validate_license_key (App.load_config e) k w = Ok builtin w.
Proof.
  intros Hunset builtin.
  assert (accepted (ApiServer.load_config e) k = builtin
          ∧ accepted (App.load_config e) k = builtin) as [H1 H2].
  { unfold accepted, ApiServer.load_config, App.load_config, load_license_keys.
    cbn [VALID_LICENSE_KEYS]. rewrite Hunset. cbn [getenv default].
    change (split_on "," "test-license-123,prod-license-456")
      with ["test-license-123"; "prod-license-456"].
    unfold builtin. destruct k as [s|].
    - assert (truthy (Some s)
              && bool_decide (s ∈ ["test-license-123"; "prod-license-456"])
              = bool_decide (Some s = Some "test-license-123"
                             ∨ Some s = Some "prod-license-456")) as Heq.
      { destruct (bool_decide_reflect
                    (s ∈ ["test-license-123"; "prod-license-456"])) as [Hin|Hout].
        - rewrite bool_decide_eq_true_2.
          + apply elem_of_cons in Hin as [->|Hin]; [done|].
            apply elem_of_cons in Hin as [->|Hin]; [done|].
            by apply elem_of_nil in Hin.
          + apply elem_of_cons in Hin as [->|Hin]; [by left|].
            apply elem_of_cons in Hin as [->|Hin]; [by right|].
            by apply elem_of_nil in Hin.
        - rewrite andb_false_r. symmetry. apply bool_decide_eq_false_2.
          intros [[= ->]|[= ->]]; apply Hout.
          + apply list_elem_of_here.
          + apply list_elem_of_further, list_elem_of_here. }
      by rewrite Heq.
    - split; symmetry; apply bool_decide_eq_false_2; by intros [?|?]. }
  by rewrite !validate_accepted, H1, H2.
Qed.

Lemma unset_allow_list_accepts_builtin_keys_witness :
  env_VALID_LICENSE_KEYS default_environ = None
  ∧ validate_license_key (ApiServer.load_config default_environ)
      (Some "prod-license-456") initial_world
    = Ok true initial_world.
Proof.
  split; [reflexivity|].
  apply (unset_allow_list_accepts_builtin_keys default_environ
           (Some "prod-license-456") initial_world).
  reflexivity.
Defined.

(** ** The decorated function and the two applications *)

(** The two outcomes of the decorated function. *)
Lemma require_license_outcome cfg f args req now w :
  require_license cfg f args req now w
  = if accepted cfg (headers_get "X-License-Key" (headers req))
    then Raise (UnboundLocalError "request_counts") w
    else Ok invalid_license_key w.
Proof.
  unfold require_license, mbind, M_bind. rewrite validate_accepted.
  by destruct (accepted cfg _).
Qed.

(** X8.  The decorated function of [require_license] never runs the handler
    it wraps and never answers 429: for a credential that passes
    [validate_license_key] the exception of [rate_limit_check] leaves it, for
    any other credential it returns the 401 response; in both cases the
    state is the one it started from, and the outcome is the same whatever
    the wrapped handler is. *)
Theorem require_license_never_runs_handler cfg (f : view) args req now w :
  (require_license cfg f args req now w
   = Raise (UnboundLocalError "request_counts") w
   ∨ require_license cfg f args req now w = Ok invalid_license_key w)
  ∧ (∀ g : view,
       require_license cfg g args req now w
       = require_license cfg f args req now w)
  ∧ (∀ r w', require_license cfg f args req now w = Ok r w' →
             r ≠ rate_limit_exceeded).
Proof.
  rewrite require_license_outcome.
  split; [destruct (accepted cfg _); [by left | by right]|].
  split; [intros g; by rewrite require_license_outcome|].
  intros r w'. destruct (accepted cfg _); [done|]. by intros [= <- _].
Qed.

Lemma api_server_dispatch cfg proxy req now w :
  dispatch (ApiServer.app cfg proxy) req now w
  = (match url_match ApiServer.routes (path req) with
     | None => ApiServer.not_found
     | Some (ApiServer.health_check_ep, _) =>
         ApiServer.health_check_response cfg now
     | Some _ =>
         if accepted cfg (headers_get "X-License-Key" (headers req))
         then ApiServer.internal_error else invalid_license_key
     end, w).
Proof.
  unfold dispatch. cbn [url_map view_functions ApiServer.app].
  destruct (url_match ApiServer.routes (path req)) as [[e args]|]; [|done].
  destruct e; [done|..]; cbn [ApiServer.views];
    rewrite require_license_outcome; by destruct (accepted cfg _).
Qed.

Lemma app_dispatch cfg proxy req now w :
  dispatch (App.app cfg proxy) req now w
  = (match url_match App.routes (path req) with
     | None => {| status := 404; body := DefaultPage |}
     | Some (App.home_ep, _) => AppResponses.home_response now
     | Some (App.health_check_ep, _) => App.health_check_response cfg now
     | Some (App.test_ep, _) => AppResponses.test_response cfg
     | Some (App.get_gainers_ep, _) =>
         if accepted cfg (headers_get "X-License-Key" (headers req))
         then {| status := 500; body := DefaultPage |}
         else invalid_license_key
     end, w).
Proof.
  unfold dispatch. cbn [url_map view_functions App.app].
  destruct (url_match App.routes (path req)) as [[e args]|]; [|done].
  destruct e; try done; cbn [App.views];
    rewrite require_license_outcome; by destruct (accepted cfg _).
Qed.

(** X9.  Every GET request to the application of api_server.py whose path
    is in normal form (it starts with a slash, has no two slashes in a row
    and is not under /static/) leaves the process state as it was and is
    answered 200, 401, 404 or 500, never 429; the answer is 200 exactly when
    the path is that of the health endpoint, so no protected endpoint ever
    answers 200; and the answer is the same whatever the proxied handlers
    would do: they are never run. *)
Theorem api_server_responses cfg proxy (req : request) (now : Z) (w : world) :
  plain_path (path req) = true →
  let out := dispatch (ApiServer.app cfg proxy) req now w in
  out.2 = w
  ∧ status out.1 ∈ [200; 401; 404; 500]
  ∧ (status out.1 = 200 ↔
     ∃ args, url_match ApiServer.routes (path req)
             = Some (ApiServer.health_check_ep, args))
  ∧ (∀ proxy', dispatch (ApiServer.app cfg proxy') req now w = out).
Proof.
  intros _ out. unfold out. rewrite api_server_dispatch. cbn [fst snd].
  split; [done|].
  split; [|split; [|intros proxy'; by rewrite api_server_dispatch]].
  - destruct (url_match ApiServer.routes (path req)) as [[e args]|];
      [destruct e; [|destruct (accepted cfg _)..]|]; cbn; set_solver.
  - destruct (url_match ApiServer.routes (path req)) as [[e args]|].
    + destruct e; [split; [by eexists | done]|..];
        (split; [destruct (accepted cfg _); done | by intros [? [=]]]).
    + split; [done | by intros [? [=]]].
Qed.

Lemma api_server_responses_witness :
  plain_path (path (get "/api/losers" (Some "test-license-123"))) = true
  ∧ status (dispatch (ApiServer.app (ApiServer.load_config default_environ)
                                    (λ _, empty_upstream))
                     (get "/api/losers" (Some "test-license-123")) 0
                     initial_world).1
    ∈ [200; 401; 404; 500].
Proof.
  split; [reflexivity|].
  destruct (api_server_responses (ApiServer.load_config default_environ)
              (λ _, empty_upstream)
              (get "/api/losers" (Some "test-license-123")) 0 initial_world
              eq_refl) as (_ & Hstatus & _).
  exact Hstatus.
Defined.

(** X10.  Every GET request to the application of app.py whose path is in
    normal form (it starts with a slash, has no two slashes in a row and is
    not under /static/) leaves the process
    state as it was and is answered 200, 401, 404 or 500, never 429; the
    answer is 200 exactly when the path is routed to one of the three
    handlers without [@require_license] (home, health, test); the 404 and 500
    answers are the framework's own pages, since app.py registers no error
    handler; and the answer is the same whatever the body of [get_gainers]
    would do. *)
Theorem app_responses cfg proxy (req : request) (now : Z) (w : world) :
  plain_path (path req) = true →
  let out := dispatch (App.app cfg proxy) req now w in
  out.2 = w
  ∧ status out.1 ∈ [200; 401; 404; 500]
  ∧ (status out.1 = 200 ↔
     ∃ e args, url_match App.routes (path req) = Some (e, args)
               ∧ App.protected e = false)
  ∧ (status out.1 = 404 ∨ status out.1 = 500 ↔ body out.1 = DefaultPage)
  ∧ (∀ proxy', dispatch (App.app cfg proxy') req now w = out).
Proof.
  intros _ out. unfold out. rewrite app_dispatch. cbn [fst snd].
  split; [done|].
  split; [|split; [|split; [|intros proxy'; by rewrite app_dispatch]]].
  - destruct (url_match App.routes (path req)) as [[e args]|];
      [destruct e; try destruct (accepted cfg _)|]; cbn; set_solver.
  - destruct (url_match App.routes (path req)) as [[e args]|].
    + destruct e; try (split; [by eexists _, _ | done]).
      split; [destruct (accepted cfg _); done|].
      by intros (e & args' & [= <- _] & ?).
    + split; [done | by intros (? & ? & [=] & _)].
  - destruct (url_match App.routes (path req)) as [[e args]|].
    + destruct e; try (split; [by intros [|] | done]).
      destruct (accepted cfg _); (split; [by intros [|] | done || by right]).
    + split; [done | by left].
Qed.

Lemma app_responses_witness :
  plain_path (path (get "/api/test" None)) = true
  ∧ status (dispatch (App.app (App.load_config default_environ) empty_upstream)
                     (get "/api/test" None) 0 initial_world).1
    ∈ [200; 401; 404; 500].
Proof.
  split; [reflexivity|].
  destruct (app_responses (App.load_config default_environ) empty_upstream
              (get "/api/test" None) 0 initial_world eq_refl)
    as (_ & Hstatus & _).
  exact Hstatus.
Defined.

Lemma dispatch_state_api_server cfg proxy req now w :
  (dispatch (ApiServer.app cfg proxy) req now w).2 = w.
Proof. by rewrite api_server_dispatch. Qed.

Lemma dispatch_state_app cfg proxy req now w :
  (dispatch (App.app cfg proxy) req now w).2 = w.
Proof. by rewrite app_dispatch. Qed.

Lemma serve_stateless {E} (app : flask_app E) reqs w :
  (∀ req now w', (dispatch app req now w').2 = w') →
  serve app reqs w = (map (λ rq, (dispatch app rq.1 rq.2 w).1) reqs, w).
Proof.
  intros Hstate. induction reqs as [|[req now] rest IH]; [done|].
  cbn [serve map fst snd].
  pose proof (Hstate req now w) as Hw.
  destruct (dispatch app req now w) as [r w']. cbn in Hw. subst w'.
  by rewrite IH.
Qed.

(** X11.  In both applications the answer to a request does not depend on
    the requests served before it: a sequence of requests served one after
    the other gets, request by request, the answers each would get alone in
    the starting state, and the state after the sequence is the starting
    state. *)
Theorem responses_do_not_depend_on_history cfg
    (reqs : list (request * Z)) (w : world) :
  (∀ proxy,
     serve (ApiServer.app cfg proxy) reqs w
     = (map (λ rq, (dispatch (ApiServer.app cfg proxy) rq.1 rq.2 w).1) reqs, w))
  ∧ (∀ proxy,
     serve (App.app cfg proxy) reqs w
     = (map (λ rq, (dispatch (App.app cfg proxy) rq.1 rq.2 w).1) reqs, w)).
Proof.
  split; intros proxy; apply serve_stateless; intros req now w'.
  - apply dispatch_state_api_server.
  - apply dispatch_state_app.
Qed.

(** X6.  When every piece of the configured allow-list is empty (the
    variable VALID_LICENSE_KEYS is the empty string, or made of commas only),
    no credential at all is valid, and every protected endpoint of both
    applications answers 401 to every request. *)
Theorem empty_allow_list_locks_out (e : environ) :
  Forall (λ piece, piece = "") (load_license_keys e) →
  (∀ k w, validate_license_key (ApiServer.load_config e) k w = Ok false w)
  ∧ (∀ proxy req now w,
       protected_path ApiServer.routes ApiServer.protected (path req) = true →
       dispatch (ApiServer.app (ApiServer.load_config e) proxy) req now w
       = (invalid_license_key, w))
  ∧ (∀ proxy req now w,
       protected_path App.routes App.protected (path req) = true →
       dispatch (App.app (App.load_config e) proxy) req now w
       = (invalid_license_key, w)).
Proof.
  intros Hempty.
  assert (∀ cfg k, VALID_LICENSE_KEYS cfg = load_license_keys e →
                   accepted cfg k = false) as Hrej.
  { intros cfg [s|] Hcfg; [|done].
    destruct (accepted cfg (Some s)) eqn:Hacc; [|done].
    pose proof (accepted_elem_of _ _ Hacc) as Hin. rewrite Hcfg in Hin.
    rewrite Forall_forall in Hempty.
    rewrite (Hempty s Hin) in Hacc. done. }
  split; [|split].
  - intros k w. by rewrite validate_accepted, Hrej.
  - intros proxy req now w Hprot. rewrite api_server_dispatch.
    unfold protected_path in Hprot.
    destruct (url_match ApiServer.routes (path req)) as [[ep args]|]; [|done].
    destruct ep; [done|..]; by rewrite Hrej.
  - intros proxy req now w Hprot. rewrite app_dispatch.
    unfold protected_path in Hprot.
    destruct (url_match App.routes (path req)) as [[ep args]|]; [|done].
    destruct ep; try done. by rewrite Hrej.
Qed.

Lemma empty_allow_list_locks_out_witness :
  let e := {| env_POLYGON_API_KEY := None;
              env_FINNHUB_API_KEY := None;
              env_VALID_LICENSE_KEYS := Some ",," |} in
  Forall (λ piece, piece = "") (load_license_keys e)
  ∧ dispatch (ApiServer.app (ApiServer.load_config e) (λ _, empty_upstream))
             (get "/api/gainers" (Some "")) 0 initial_world
    = (invalid_license_key, initial_world).
Proof.
  intros e.
  assert (Forall (λ piece, piece = "") (load_license_keys e)) as Hempty
    by (repeat constructor).
  split; [exact Hempty|].
  destruct (empty_allow_list_locks_out e Hempty) as (_ & Happ & _).
  apply Happ. reflexivity.
Defined.

(** ** The proxied handlers *)

Section Handlers.
Variable cfg : config.
Variable requests_get : string → list (string * string) → Z → Z → http_outcome.
Variable dumps : pyjson → option string.

Lemma forward_or_encoded on_exception data document :
  dumps data = Some document →
  Handlers.forward_or dumps on_exception data
  = {| status := 200; body := Forwarded document |}.
Proof. intros H. unfold Handlers.forward_or, Handlers.forward. by rewrite H. Qed.

Lemma forward_or_raised on_exception data :
  dumps data = None →
  Handlers.forward_or dumps on_exception data = on_exception.
Proof. intros H. unfold Handlers.forward_or, Handlers.forward. by rewrite H. Qed.

(** The shape shared by [get_gainers], [get_float] and [get_news] of
    api_server.py: the document of the fetch function is forwarded when it is
    true, and reported as a failure otherwise. *)
Lemma guarded_handler_outcome (o : http_outcome) (message : string) w :
  (data ← (match decode o with
           | inr data => mret data
           | inl _ => mret PyNone
           end : M pyjson);
   if py_truth data then
     mret (Handlers.forward_or dumps
             (error_response "Internal server error" 500) data)
   else mret (error_response message 500)) w
  = Ok (match decode o with
        | inr data =>
            if py_truth data
            then Handlers.forward_or dumps
                   (error_response "Internal server error" 500) data
            else error_response message 500
        | inl _ => error_response message 500
        end) w.
Proof.
  unfold mbind, M_bind.
  destruct (decode o) as [err|data]; [done|]. cbn.
  by destruct (py_truth data).
Qed.

Lemma decode_inr o data :
  decode o = inr data ↔
  ∃ c, o = HttpResponse c (Some data) ∧ ¬ (400 ≤ c < 600).
Proof.
  destruct o as [|c [d|]]; cbn.
  - split; [done | by intros (? & ? & _)].
  - case_bool_decide.
    + split; [done|]. intros (c' & [= <- <-] & ?). done.
    + split; [intros [= <-]; by eexists | by intros (c' & [= <- <-] & ?)].
  - case_bool_decide; (split; [done | by intros (? & ? & _)]).
Qed.

(** The upstream call failed: no response, a status from 400 to 599, or a
    body that is not JSON. *)
Lemma decode_inl o :
  (o = NoResponse
   ∨ (∃ c document, o = HttpResponse c document ∧ 400 ≤ c < 600)
   ∨ (∃ c, o = HttpResponse c None)) →
  ∃ err, decode o = inl err.
Proof.
  intros [->|[(c & document & -> & Hc)|(c & ->)]]; cbn.
  - by eexists.
  - rewrite bool_decide_eq_true_2 by done. by eexists.
  - case_bool_decide; by eexists.
Qed.

Lemma forward_or_status on_exception data :
  status on_exception = 500 →
  status (Handlers.forward_or dumps on_exception data) ∈ [200; 500].
Proof.
  intros H. unfold Handlers.forward_or, Handlers.forward.
  destruct (dumps data); cbn; [|rewrite H]; set_solver.
Qed.

(** X12.  [get_gainers], [get_float] and [get_news] of api_server.py never
    raise, never change the state and answer 200 or 500.  When the upstream
    answers with a status outside 400-599 and a JSON document that is true in
    Python, the handler forwards the serialised document with status 200, or
    answers 'Internal server error' with status 500 when [jsonify] raises on
    the document; when the upstream call fails (no response, a status from
    400 to 599, a body that is not JSON) it answers its own 'Failed to fetch
    ...' with status 500. *)
Theorem guarded_handlers_outcomes (symbol : string) (req : request)
    (now : Z) (w : world) :
  let outcome (h : view) (args : list string) (o : http_outcome)
              (message : string) : Prop :=
    (∃ r, h args req now w = Ok r w ∧ status r ∈ [200; 500])
    ∧ (∀ c data document,
         o = HttpResponse c (Some data) → ¬ (400 ≤ c < 600) →
         py_truth data = true → dumps data = Some document →
         h args req now w
         = Ok {| status := 200; body := Forwarded document |} w)
    ∧ (∀ c data,
         o = HttpResponse c (Some data) → ¬ (400 ≤ c < 600) →
         py_truth data = true → dumps data = None →
         h args req now w
         = Ok (error_response "Internal server error" 500) w)
    ∧ (o = NoResponse
       ∨ (∃ c document, o = HttpResponse c document ∧ 400 ≤ c < 600)
       ∨ (∃ c, o = HttpResponse c None) →
       h args req now w = Ok (error_response message 500) w) in
  outcome (Handlers.get_gainers cfg requests_get dumps) []
    (requests_get
       "https://api.polygon.io/v2/snapshot/locale/us/markets/stocks/gainers"
       [("apiKey", POLYGON_API_KEY cfg)] 15 now)
    "Failed to fetch gainers"
  ∧ outcome (Handlers.get_float cfg requests_get dumps) [symbol]
      (requests_get ("https://api.polygon.io/v3/reference/tickers/" +:+ symbol)
         [("apiKey", POLYGON_API_KEY cfg)] 15 now)
      "Failed to fetch float data"
  ∧ outcome (Handlers.get_news cfg requests_get dumps) [symbol]
      (requests_get "https://api.polygon.io/v2/reference/news"
         [("ticker", symbol); ("limit", "10");
          ("apiKey", POLYGON_API_KEY cfg)] 15 now)
      "Failed to fetch news".
Proof.
  intros outcome.
  assert (∀ o message,
            let r := match decode o with
                     | inr data =>
                         if py_truth data
                         then Handlers.forward_or dumps
                                (error_response "Internal server error" 500)
                                data
                         else error_response message 500
                     | inl _ => error_response message 500
                     end in
            (∃ r', Ok r w = Ok r' w ∧ status r' ∈ [200; 500])
            ∧ (∀ c data document,
                 o = HttpResponse c (Some data) → ¬ (400 ≤ c < 600) →
                 py_truth data = true → dumps data = Some document →
                 Ok r w = Ok {| status := 200; body := Forwarded document |} w)
            ∧ (∀ c data,
                 o = HttpResponse c (Some data) → ¬ (400 ≤ c < 600) →
                 py_truth data = true → dumps data = None →
                 Ok r w = Ok (error_response "Internal server error" 500) w)
            ∧ (o = NoResponse
               ∨ (∃ c document, o = HttpResponse c document ∧ 400 ≤ c < 600)
               ∨ (∃ c, o = HttpResponse c None) →
               Ok r w = Ok (error_response message 500) w)) as Hshape.
  { intros o message r. split; [|split; [|split]].
    - eexists; split; [done|]. unfold r.
      destruct (decode o) as [err|data]; [cbn; set_solver|].
      destruct (py_truth data); [by apply forward_or_status | cbn; set_solver].
    - intros c data document -> Hc Htruth Hdumps. unfold r.
      rewrite (proj2 (decode_inr _ data)) by (by eexists).
      by rewrite Htruth, (forward_or_encoded _ _ _ Hdumps).
    - intros c data -> Hc Htruth Hdumps. unfold r.
      rewrite (proj2 (decode_inr _ data)) by (by eexists).
      by rewrite Htruth, (forward_or_raised _ _ Hdumps).
    - intros Hfail. unfold r.
      by destruct (decode_inl o Hfail) as [err ->]. }
  unfold outcome, Handlers.get_gainers, Handlers.get_float, Handlers.get_news,
    Handlers.fetch_polygon_gainers, Handlers.fetch_polygon_float,
    Handlers.fetch_polygon_news.
  rewrite !guarded_handler_outcome.
  split; [|split]; apply Hshape.
Qed.

(** X13.  When the upstream answers with a status outside 400-599 and a
    JSON document that is false in Python (an empty object or list, null,
    false, 0, an empty string), [get_gainers], [get_float] and [get_news] of
    api_server.py report a failure with status 500 although the call
    succeeded, for any URL variable and any request. *)
Theorem falsy_document_reported_as_failure (c : Z) (data : pyjson)
    (symbol : string) (req : request) (now : Z) (w : world) :
  ¬ (400 ≤ c < 600) →
  py_truth data = false →
  (requests_get
     "https://api.polygon.io/v2/snapshot/locale/us/markets/stocks/gainers"
     [("apiKey", POLYGON_API_KEY cfg)] 15 now = HttpResponse c (Some data) →
   Handlers.get_gainers cfg requests_get dumps [] req now w
   = Ok (error_response "Failed to fetch gainers" 500) w)
  ∧ (requests_get ("https://api.polygon.io/v3/reference/tickers/" +:+ symbol)
       [("apiKey", POLYGON_API_KEY cfg)] 15 now = HttpResponse c (Some data) →
     Handlers.get_float cfg requests_get dumps [symbol] req now w
     = Ok (error_response "Failed to fetch float data" 500) w)
  ∧ (requests_get "https://api.polygon.io/v2/reference/news"
       [("ticker", symbol); ("limit", "10");
        ("apiKey", POLYGON_API_KEY cfg)] 15 now = HttpResponse c (Some data) →
     Handlers.get_news cfg requests_get dumps [symbol] req now w
     = Ok (error_response "Failed to fetch news" 500) w).
Proof.
  intros Hc Hfalse.
  assert (decode (HttpResponse c (Some data)) = inr data) as Hdec.
  { apply decode_inr. by eexists. }
  unfold Handlers.get_gainers, Handlers.get_float, Handlers.get_news,
    Handlers.fetch_polygon_gainers, Handlers.fetch_polygon_float,
    Handlers.fetch_polygon_news.
  rewrite !guarded_handler_outcome.
  split; [|split]; intros ->; by rewrite Hdec, Hfalse.
Qed.

(** X14.  [get_losers] of api_server.py and [get_gainers] of app.py never
    raise, never change the state and answer 200 or 500.  When the upstream
    answers with a status outside 400-599 and a JSON document, whatever its
    truth value in Python ([{}], [[]] and null included), the handler
    forwards the serialised document with status 200; when [jsonify] raises
    on the document, or the upstream call fails (no response, a status from
    400 to 599, a body that is not JSON), it answers 500, [get_losers] with
    'Internal server error' and app.py's [get_gainers] with 'Failed to fetch
    gainers'. *)
Theorem unguarded_handlers_outcomes (args : list string) (req : request)
    (now : Z) (w : world) :
  let outcome (h : view) (o : http_outcome) (message : string) : Prop :=
    (∃ r, h args req now w = Ok r w ∧ status r ∈ [200; 500])
    ∧ (∀ c data document,
         o = HttpResponse c (Some data) → ¬ (400 ≤ c < 600) →
         dumps data = Some document →
         h args req now w
         = Ok {| status := 200; body := Forwarded document |} w)
    ∧ (∀ c data,
         o = HttpResponse c (Some data) → ¬ (400 ≤ c < 600) →
         dumps data = None →
         h args req now w = Ok (error_response message 500) w)
    ∧ (o = NoResponse
       ∨ (∃ c document, o = HttpResponse c document ∧ 400 ≤ c < 600)
       ∨ (∃ c, o = HttpResponse c None) →
       h args req now w = Ok (error_response message 500) w) in
  outcome (Handlers.get_losers cfg requests_get dumps)
    (requests_get
       "https://api.polygon.io/v2/snapshot/locale/us/markets/stocks/losers"
       [("apiKey", POLYGON_API_KEY cfg)] 15 now)
    "Internal server error"
  ∧ outcome (AppHandlers.get_gainers cfg requests_get dumps)
      (requests_get
         "https://api.polygon.io/v2/snapshot/locale/us/markets/stocks/gainers"
         [("apiKey", POLYGON_API_KEY cfg)] 15 now)
      "Failed to fetch gainers".
Proof.
  intros outcome.
  assert (∀ o message,
            let m : M response :=
              match decode o with
              | inr data =>
                  mret (Handlers.forward_or dumps
                          (error_response message 500) data)
              | inl _ => mret (error_response message 500)
              end in
            (∃ r, m w = Ok r w ∧ status r ∈ [200; 500])
            ∧ (∀ c data document,
                 o = HttpResponse c (Some data) → ¬ (400 ≤ c < 600) →
                 dumps data = Some document →
                 m w = Ok {| status := 200; body := Forwarded document |} w)
            ∧ (∀ c data,
                 o = HttpResponse c (Some data) → ¬ (400 ≤ c < 600) →
                 dumps data = None →
                 m w = Ok (error_response message 500) w)
            ∧ (o = NoResponse
               ∨ (∃ c document, o = HttpResponse c document ∧ 400 ≤ c < 600)
               ∨ (∃ c, o = HttpResponse c None) →
               m w = Ok (error_response message 500) w)) as Hshape.
  { intros o message m. split; [|split; [|split]].
    - unfold m. destruct (decode o) as [err|data].
      + eexists; split; [done|]. cbn. set_solver.
      + eexists; split; [done|]. by apply forward_or_status.
    - intros c data document -> Hc Hdumps. unfold m.
      rewrite (proj2 (decode_inr _ data)) by (by eexists).
      by rewrite (forward_or_encoded _ _ _ Hdumps).
    - intros c data -> Hc Hdumps. unfold m.
      rewrite (proj2 (decode_inr _ data)) by (by eexists).
      by rewrite (forward_or_raised _ _ Hdumps).
    - intros Hfail. unfold m.
      by destruct (decode_inl o Hfail) as [err ->]. }
  split; apply Hshape.
Qed.

(** X15.  [get_gainers] of api_server.py and [get_gainers] of app.py on the
    same upstream answer ([dumps] and [dumps_app] are the serialisations of
    [jsonify] in the two applications).  When the upstream call fails both
    answer 500 'Failed to fetch gainers'.  They return different responses
    exactly when the upstream answered with a status outside 400-599 and a
    JSON document, and either the document is false in Python and app.py's
    [jsonify] accepts it (app.py forwards it with status 200, api_server.py
    answers 500 'Failed to fetch gainers'), or the document is true in Python
    and [jsonify] raises in api_server.py (which answers 500 'Internal server
    error', where app.py answers 500 'Failed to fetch gainers' when its own
    [jsonify] raises) or the two serialisations differ. *)
Theorem get_gainers_differ_between_files
    (dumps_app : pyjson → option string) (req : request) (now : Z)
    (w : world) :
  let o := requests_get
             "https://api.polygon.io/v2/snapshot/locale/us/markets/stocks/gainers"
             [("apiKey", POLYGON_API_KEY cfg)] 15 now in
  let api := Handlers.get_gainers cfg requests_get dumps [] req now w in
  let app := AppHandlers.get_gainers cfg requests_get dumps_app [] req now w in
  (api ≠ app ↔
   ∃ c data, o = HttpResponse c (Some data) ∧ ¬ (400 ≤ c < 600)
             ∧ ((py_truth data = false ∧ is_Some (dumps_app data))
                ∨ (py_truth data = true
                   ∧ (dumps data = None ∨ dumps data ≠ dumps_app data))))
  ∧ (o = NoResponse
     ∨ (∃ c document, o = HttpResponse c document ∧ 400 ≤ c < 600)
     ∨ (∃ c, o = HttpResponse c None) →
     api = Ok (error_response "Failed to fetch gainers" 500) w
     ∧ app = Ok (error_response "Failed to fetch gainers" 500) w)
  ∧ (∀ c data document,
       o = HttpResponse c (Some data) → ¬ (400 ≤ c < 600) →
       py_truth data = false → dumps_app data = Some document →
       app = Ok {| status := 200; body := Forwarded document |} w
       ∧ api = Ok (error_response "Failed to fetch gainers" 500) w)
  ∧ (∀ c data,
       o = HttpResponse c (Some data) → ¬ (400 ≤ c < 600) →
       py_truth data = true → dumps data = None → dumps_app data = None →
       api = Ok (error_response "Internal server error" 500) w
       ∧ app = Ok (error_response "Failed to fetch gainers" 500) w).
Proof.
  intros o api app.
  assert (api = Ok (match decode o with
                    | inr data =>
                        if py_truth data
                        then Handlers.forward_or dumps
                               (error_response "Internal server error" 500)
                               data
                        else error_response "Failed to fetch gainers" 500
                    | inl _ => error_response "Failed to fetch gainers" 500
                    end) w) as Hapi.
  { unfold api, Handlers.get_gainers, Handlers.fetch_polygon_gainers.
    by rewrite guarded_handler_outcome. }
  assert (app = Ok (match decode o with
                    | inr data =>
                        Handlers.forward_or dumps_app
                          (error_response "Failed to fetch gainers" 500) data
                    | inl _ => error_response "Failed to fetch gainers" 500
                    end) w) as Happ.
  { unfold app, AppHandlers.get_gainers. fold o. by destruct (decode o). }
  rewrite Hapi, Happ. clear Hapi Happ.
  split; [|split; [|split]].
  - destruct (decode o) as [err|data] eqn:Hdec.
    + split; [done|]. intros (c & data & Ho & Hc & _).
      assert (decode o = inr data) by (apply decode_inr; by eexists).
      congruence.
    + apply decode_inr in Hdec as (c & Ho & Hc).
      unfold Handlers.forward_or, Handlers.forward.
      destruct (py_truth data) eqn:Htruth,
        (dumps data) as [da|] eqn:Hda, (dumps_app data) as [db|] eqn:Hdb;
        cbn [fmap option_fmap option_map default].
      * split.
        -- intros Hne. eexists c, data. split; [done|]. split; [done|].
           right. split; [done|]. right. rewrite Hda, Hdb. congruence.
        -- intros (c' & data' & Ho' & _ & Hcase) [=]. subst.
           rewrite Ho in Ho'. simplify_eq.
           destruct Hcase as [[? _]|[_ [?|Hne]]]; try congruence.
      * split; [|by intros _ [=]]. intros _. eexists c, data.
        split; [done|]. split; [done|]. right. split; [done|]. right.
        by rewrite Hda, Hdb.
      * split; [|by intros _ [=]]. intros _. eexists c, data.
        split; [done|]. split; [done|]. right. split; [done|]. by left.
      * split; [|by intros _ [=]]. intros _. eexists c, data.
        split; [done|]. split; [done|]. right. split; [done|]. by left.
      * split; [|by intros _ [=]]. intros _. eexists c, data.
        split; [done|]. split; [done|]. left. by rewrite Hdb.
      * split; [done|]. intros (c' & data' & Ho' & _ & Hcase).
        rewrite Ho in Ho'. simplify_eq.
        destruct Hcase as [[_ [? ?]]|[? _]]; congruence.
      * split; [|by intros _ [=]]. intros _. eexists c, data.
        split; [done|]. split; [done|]. left. by rewrite Hdb.
      * split; [done|]. intros (c' & data' & Ho' & _ & Hcase).
        rewrite Ho in Ho'. simplify_eq.
        destruct Hcase as [[_ [? ?]]|[? _]]; congruence.
  - intros Hfail. by destruct (decode_inl o Hfail) as [err ->].
  - intros c data document Ho Hc Hfalse Hd.
    rewrite (proj2 (decode_inr o data)) by (by eexists).
    rewrite Hfalse. unfold Handlers.forward_or, Handlers.forward.
    by rewrite Hd.
  - intros c data Ho Hc Htrue Hda Hdb.
    rewrite (proj2 (decode_inr o data)) by (by eexists).
    rewrite Htrue. unfold Handlers.forward_or, Handlers.forward.
    by rewrite Hda, Hdb.
Qed.

End Handlers.

Lemma falsy_document_reported_as_failure_witness :
  (¬ (400 ≤ 200 < 600) ∧ py_truth (PyDict []) = false)
  ∧ Handlers.get_gainers (ApiServer.load_config default_environ)
      empty_object_upstream sample_dumps [] (get "/api/gainers" None) 0
      initial_world
    = Ok (error_response "Failed to fetch gainers" 500) initial_world.
Proof.
  assert (¬ (400 ≤ 200 < 600)) as Hc by lia.
  split; [split; [exact Hc | reflexivity]|].
  destruct (falsy_document_reported_as_failure
              (ApiServer.load_config default_environ) empty_object_upstream
              sample_dumps 200 (PyDict []) "" (get "/api/gainers" None) 0
              initial_world Hc eq_refl) as (Hgainers & _ & _).
  apply Hgainers. reflexivity.
Defined.

(** ** The paths the applications serve *)

Lemma split_on_id sep s : contains sep s = false → split_on sep s = [s].
Proof.
  induction s as [|c rest IH]; [done|]. cbn [contains split_on].
  intros [Hc Hrest]%orb_false_iff. rewrite Hc. by rewrite IH.
Qed.

Lemma split_on_append sep piece rest :
  contains sep piece = false →
  split_on sep (piece +:+ String sep rest) = piece :: split_on sep rest.
Proof.
  induction piece as [|c piece IH].
  - intros _. change ("" +:+ String sep rest) with (String sep rest).
    cbn [split_on]. by rewrite Ascii.eqb_refl.
  - cbn [contains]. intros [Hc Hrest]%orb_false_iff.
    change (String c piece +:+ String sep rest)
      with (String c (piece +:+ String sep rest)).
    cbn [split_on]. rewrite Hc. by rewrite IH.
Qed.

Lemma concat_cons_cons sep a b l :
  String.concat (String sep "") (a :: b :: l)
  = a +:+ String sep (String.concat (String sep "") (b :: l)).
Proof. reflexivity. Qed.

(** Joining segments without the separator and cutting the result at the
    separator gives the segments back. *)
Lemma split_on_concat_inv sep segs :
  segs ≠ [] →
  Forall (λ piece, contains sep piece = false) segs →
  split_on sep (String.concat (String sep "") segs) = segs.
Proof.
  intros Hne Hall.
  induction Hall as [|piece [|piece' pieces] Hp Hall IH]; [done| |].
  - by apply split_on_id.
  - rewrite concat_cons_cons.
    rewrite (split_on_append sep piece
               (String.concat (String sep "") (piece' :: pieces)) Hp).
    by rewrite IH.
Qed.

Lemma url_match_split {E} (routes : list (string * E)) p :
  url_match routes p = url_match_segments routes (split_on "/" p).
Proof.
  induction routes as [|[rule e] rest IH]; [done|].
  cbn [url_match url_match_segments]. unfold match_rule. by rewrite IH.
Qed.

Lemma match_segments_spec pattern segs args :
  match_segments pattern segs = Some args ↔ seg_match pattern segs args.
Proof.
  revert segs args. induction pattern as [|p pattern IH]; intros [|s segs] args;
    cbn [match_segments seg_match]; try done.
  - split; [by intros [= <-] | by intros ->].
  - destruct (is_variable p).
    + destruct s as [|c s]; [split; [done | by intros [? _]]|].
      destruct (match_segments pattern segs) as [tl|] eqn:Hm; cbn.
      * apply IH in Hm. split.
        -- intros [= <-]. split; [done|]. by eexists.
        -- intros (_ & tl2 & -> & Hm2). apply IH in Hm2.
           apply IH in Hm. congruence.
      * split; [done|]. intros (_ & tl2 & -> & Hm2). apply IH in Hm2.
        congruence.
    + destruct (String.eqb_spec p s) as [->|Hne].
      * rewrite IH. split; [done | by intros [_ ?]].
      * split; [done | by intros [? _]].
Qed.

(** The segments of a rule, computed. *)
Ltac split_rule H :=
  match type of H with
  | context [split_on "/" ?rule] =>
      let r := eval vm_compute in (split_on "/" rule) in
      change (split_on "/" rule) with r in H
  end.

(** The segments of a path that matches a rule, one by one. *)
Ltac open_segments H :=
  cbn in H;
  repeat match type of H with
         | match ?l with _ => _ end => destruct l; [try done..]
         | _ ∧ _ => let H1 := fresh in destruct H as [H1 H]
         | ex _ =>
             let x := fresh in
             let H1 := fresh in destruct H as (x & H1 & H)
         end.

(** Every rule of the map in turn, then the segments of the one that
    matched. *)
Ltac first_matching_rule :=
  repeat (match goal with
          | |- context [match_segments (split_on "/" ?rule) ?l] =>
              destruct (match_segments (split_on "/" rule) l)
                as [tl|] eqn:?
          end);
  try done;
  intros [= <- <-];
  match goal with
  | H : match_segments _ _ = Some _ |- _ =>
      apply match_segments_spec in H; split_rule H; open_segments H
  end.

Lemma api_server_serves_complete p e args :
  url_match ApiServer.routes p = Some (e, args) → api_server_serves p e args.
Proof.
  rewrite url_match_split.
  pose proof (split_on_concat "/" p) as Hp.
  pose proof (split_on_no_sep "/" p) as Hns.
  revert Hp Hns. generalize (split_on "/" p). intros segs Hp Hns.
  unfold ApiServer.routes. cbn [url_match_segments].
  first_matching_rule.
  all: subst; cbn [api_server_serves].
  all: try (split; reflexivity).
  all: eexists; repeat split; try done.
  all: by (do 3 apply Forall_cons_1 in Hns as [_ Hns];
           apply Forall_cons_1 in Hns as [Hns _]).
Qed.

Lemma api_server_serves_sound p e args :
  api_server_serves p e args → url_match ApiServer.routes p = Some (e, args).
Proof.
  destruct e; cbn [api_server_serves]; try (by intros [-> ->]).
  all: intros (symbol & Hne & Hslash & -> & ->).
  all: rewrite url_match_split.
  all: match goal with
       | |- context [split_on "/" (?prefix +:+ ?symbol)] =>
           let segs := eval vm_compute in (split_on "/" prefix) in
           let segs' := eval cbv in (removelast segs ++ [symbol]) in
           change (prefix +:+ symbol) with (String.concat "/" segs');
           rewrite (split_on_concat_inv "/" segs')
       end.
  all: try done.
  all: try (by repeat constructor).
  all: destruct symbol; [done|]; reflexivity.
Qed.

Lemma app_serves_complete p e args :
  url_match App.routes p = Some (e, args) → app_serves p e args.
Proof.
  rewrite url_match_split.
  pose proof (split_on_concat "/" p) as Hp.
  revert Hp. generalize (split_on "/" p). intros segs Hp.
  unfold App.routes. cbn [url_match_segments].
  first_matching_rule.
  all: subst; by split.
Qed.

(** X16.  The paths the two applications serve, among the paths in normal
    form (a leading slash, no two slashes in a row, not under /static/).  In
    api_server.py such a path is routed to an endpoint exactly when it is
    /api/health, /api/gainers or /api/losers, or one of /api/historical/,
    /api/float/, /api/news/ and /api/volume/ followed by a symbol that is not
    empty and has no slash, which is then the one URL variable given to the
    handler.  In app.py the routed paths are exactly /, /api/health,
    /api/gainers and /api/test, without URL variables.  Every other path in
    normal form matches no rule of the program. *)
Theorem served_paths (p : string) :
  plain_path p = true →
  (∀ e args, url_match ApiServer.routes p = Some (e, args)
             ↔ api_server_serves p e args)
  ∧ (∀ e args, url_match App.routes p = Some (e, args) ↔ app_serves p e args).
Proof.
  intros _. split; intros e args; split.
  - apply api_server_serves_complete.
  - apply api_server_serves_sound.
  - apply app_serves_complete.
  - intros [-> ->]. by destruct e.
Qed.

Lemma served_paths_witness :
  plain_path "/api/float/AAPL" = true
  ∧ api_server_serves "/api/float/AAPL" ApiServer.get_float_ep ["AAPL"].
Proof.
  split; [reflexivity|].
  destruct (served_paths "/api/float/AAPL" eq_refl) as [Hapi _].
  apply Hapi. reflexivity.
Defined.

(** X17.  Configuration round trip: when VALID_LICENSE_KEYS is set to a
    non-empty list of keys joined with commas, none of which contains a
    comma, the allow-list of both applications is that list, in order, and a
    credential is accepted exactly when it is a non-empty key of the list. *)
Theorem configured_keys_round_trip (polygon finnhub : option string)
    (keys : list string) :
  keys ≠ [] →
  Forall (λ k, contains "," k = false) keys →
  let e := {| env_POLYGON_API_KEY := polygon;
              env_FINNHUB_API_KEY := finnhub;
              env_VALID_LICENSE_KEYS := Some (String.concat "," keys) |} in
  VALID_LICENSE_KEYS (ApiServer.load_config e) = keys
  ∧ VALID_LICENSE_KEYS (App.load_config e) = keys
  ∧ (∀ s w, validate_license_key (ApiServer.load_config e) (Some s) w
            = Ok (bool_decide (s ≠ "" ∧ s ∈ keys)) w)
  ∧ (∀ s w, validate_license_key (App.load_config e) (Some s) w
            = Ok (bool_decide (s ≠ "" ∧ s ∈ keys)) w).
Proof.
  intros Hne Hkeys e.
  assert (load_license_keys e = keys) as Hload
    by (apply split_on_concat_inv; done).
  assert (∀ cfg s, VALID_LICENSE_KEYS cfg = keys →
                   accepted cfg (Some s) = bool_decide (s ≠ "" ∧ s ∈ keys))
    as Hacc.
  { intros cfg s Hcfg. unfold accepted. rewrite Hcfg.
    destruct s as [|c s]; cbn [truthy andb].
    - symmetry. apply bool_decide_eq_false_2. by intros [? _].
    - apply bool_decide_ext. split; [done | by intros [_ ?]]. }
  split; [done|]. split; [done|].
  split; intros s w; rewrite validate_accepted; by rewrite Hacc.
Qed.

Lemma configured_keys_round_trip_witness :
  (["alpha"; "beta"] ≠ [] ∧ Forall (λ k, contains "," k = false) ["alpha"; "beta"])
  ∧ VALID_LICENSE_KEYS
      (ApiServer.load_config
         {| env_POLYGON_API_KEY := None;
            env_FINNHUB_API_KEY := None;
            env_VALID_LICENSE_KEYS := Some (String.concat "," ["alpha"; "beta"]) |})
    = ["alpha"; "beta"].
Proof.
  assert (["alpha"; "beta"] ≠ @nil string) as Hne by discriminate.
  assert (Forall (λ k, contains "," k = false) ["alpha"; "beta"]) as Hkeys
    by (repeat constructor).
  split; [split; [exact Hne | exact Hkeys]|].
  apply (configured_keys_round_trip None None ["alpha"; "beta"] Hne Hkeys).
Defined.
